(** * pygmsh: mesh post-processing ([helpers.generate_mesh]) and the
      multi-point curve ([built_in.spline.Spline])

    A shallow embedding of [src/pygmsh/helpers.py] and
    [src/pygmsh/built_in/spline.py].

    - numpy arrays of rank two are records of a column count and a list of
      rows; integer arrays hold [Z], coordinate arrays hold binary64 floats;
    - Python dicts ([mesh.cells], [mesh.point_data], [mesh.cell_data]) are
      [gmap]s; the order in which a dict or a set is iterated is not fixed
      by the language, so it is a parameter of the development;
    - exceptions are values of [exn]; code that can raise returns
      [result A]; code that also touches the file system runs in the
      state-and-exception monad [io]. *)

From Stdlib Require Import PrimFloat ZArith Lia Ascii.
From stdpp Require Import gmap strings list fin_maps sorting pretty.

Local Open Scope string_scope.
Local Open Scope list_scope.
Local Open Scope Z_scope.

(** ** Exceptions and the [result] monad *)

Inductive exn : Type :=
| AssertionError (msg : string)
| ValueError (msg : string)
| IndexError
| KeyError (key : string)
| FileNotFoundError (path : string)
| AttributeError (name : string)
| ReadError (msg : string).

Inductive result (A : Type) : Type :=
| Ok (a : A)
| Raise (e : exn).
Arguments Ok {A} a.
Arguments Raise {A} e.

#[global] Instance result_bind : MBind result := λ A B k r,
  match r with
  | Ok a => k a
  | Raise e => Raise e
  end.
#[global] Instance result_ret : MRet result := λ A a, Ok a.

(** [[f(x) for x in l]], stopping at the first exception. *)
Fixpoint rmapM {A B} (f : A → result B) (l : list A) : result (list B) :=
  match l with
  | [] => Ok []
  | x :: l' =>
      y ← f x; ys ← rmapM f l'; Ok (y :: ys)
  end.

(** ** numpy arrays of rank two *)

Record ndarray (A : Type) : Type := NdArray {
  shape1 : nat;            (* a.shape[1] *)
  rows : list (list A)     (* a[0], a[1], ... *)
}.
Arguments NdArray {A} shape1 rows.
Arguments shape1 {A} _.
Arguments rows {A} _.

(** [a.shape[0]] *)
Definition shape0 {A} (a : ndarray A) : nat := length (rows a).

(** [numpy.prod(a.shape)] *)
Definition np_prod_shape {A} (a : ndarray A) : nat := (shape0 a * shape1 a)%nat.

(** The representation invariant of an array: it is rectangular. *)
Definition wf_ndarray {A} (a : ndarray A) : Prop :=
  Forall (λ r, length r = shape1 a) (rows a).

(** [numpy.concatenate(seq)] for a sequence of rank-one arrays: an empty
    sequence is refused. *)
Definition np_concatenate {A} (parts : list (list A)) : result (list A) :=
  match parts with
  | [] => Raise (ValueError "need at least one array to concatenate")
  | _ => Ok (concat parts)
  end.

(** [numpy.concatenate(c)] for a rank-two array [c] iterates over its rows. *)
Definition np_concatenate_rows {A} (c : ndarray A) : result (list A) :=
  np_concatenate (rows c).

(** Insertion of a value into a strictly increasing list. *)
Fixpoint insert_unique (x : Z) (l : list Z) : list Z :=
  match l with
  | [] => [x]
  | y :: l' =>
      if x <? y then x :: l
      else if x =? y then l
      else y :: insert_unique x l'
  end.

(** The position of the first occurrence of [x] in [l]. *)
Fixpoint index_of (x : Z) (l : list Z) : nat :=
  match l with
  | [] => O
  | y :: l' => if x =? y then O else S (index_of x l')
  end.

(** [numpy.unique(a, return_inverse=True)]: the sorted distinct values of
    [a], and for each element of [a] its position among them. *)
Definition np_unique (a : list Z) : list Z := foldr insert_unique [] a.

Definition np_unique_inverse (a : list Z) : list Z * list Z :=
  let u := np_unique a in
  (u, map (λ x, Z.of_nat (index_of x u)) a).

(** [a[k : k + n]] for a rank-one array and [0 <= k], [0 <= n]. *)
Definition np_slice {A} (a : list A) (k n : nat) : list A := take n (drop k a).

(** The rows of a flat buffer read as [nr] rows of [nc] elements. *)
Fixpoint chunks {A} (nr nc : nat) (l : list A) : list (list A) :=
  match nr with
  | O => []
  | S nr' => take nc l :: chunks nr' nc (drop nc l)
  end.

(** [a.reshape((nr, nc))] for a rank-one array [a]. *)
Definition np_reshape {A} (a : list A) (nr nc : nat) : result (ndarray A) :=
  if (length a =? nr * nc)%nat then Ok (NdArray nc (chunks nr nc a))
  else Raise (ValueError "cannot reshape array").

(** [a[i]] for an integer [i]: negative indices count from the end. *)
Definition np_getrow {A} (a : ndarray A) (i : Z) : result (list A) :=
  let n := Z.of_nat (shape0 a) in
  let j := if i <? 0 then i + n else i in
  if (0 <=? j) && (j <? n) then
    match rows a !! Z.to_nat j with
    | Some r => Ok r
    | None => Raise IndexError
    end
  else Raise IndexError.

(** [a[idx]] for an integer array [idx]: selection of rows. *)
Definition np_take {A} (a : ndarray A) (idx : list Z) : result (ndarray A) :=
  rs ← rmapM (np_getrow a) idx; Ok (NdArray (shape1 a) rs).

(** [a[:, j]] for [j < a.shape[1]]. *)
Definition np_column {A} (a : ndarray A) (j : nat) : list A :=
  omap (λ r, r !! j) (rows a).

(** [a[:, :n]] *)
Definition np_columns_upto {A} (a : ndarray A) (n : nat) : ndarray A :=
  NdArray (Nat.min n (shape1 a)) (map (take n) (rows a)).

(** [numpy.all(b)] *)
Definition np_all (b : list bool) : bool := forallb id b.

(** The float literal [1.0e-13] (the binary64 value nearest to it). *)
Definition z_tolerance : float := 0x1.c25c268497682p-44%float.

(** The float literal [1.0e-6] (the binary64 value nearest to it). *)
Definition one_millionth : float := 0x1.0c6f7a0b5ed8dp-20%float.

(** [numpy.abs(x) < 1.0e-13], element-wise. *)
Definition abs_below_tolerance (x : float) : bool :=
  PrimFloat.ltb (PrimFloat.abs x) z_tolerance.

(** ** Python dicts and sets *)

(** [d[key]] *)
Definition getitem {V} (d : gmap string V) (key : string) : result V :=
  match d !! key with
  | Some v => Ok v
  | None => Raise (KeyError key)
  end.

(** [key in d] *)
Definition contains {V} (d : gmap string V) (key : string) : bool :=
  bool_decide (is_Some (d !! key)).

(** The order in which Python iterates over the keys of a dict and over the
    elements of a set.  The language fixes neither (a set of strings is
    iterated in hash order), only that each key or element is visited
    once. *)
Class PyIteration : Type := {
  dict_keys : ∀ {V}, gmap string V → list string;
  set_iter : gset string → list string;
  dict_keys_perm : ∀ V (d : gmap string V), dict_keys d ≡ₚ (map_to_list d).*1;
  set_iter_perm : ∀ s, set_iter s ≡ₚ elements s
}.

(** One order in which dicts and sets can be iterated: the one of stdpp's
    [map_to_list] and [elements]. *)
#[global, refine] Instance listing_order : PyIteration := {|
  dict_keys := λ V d, (map_to_list d).*1;
  set_iter := elements
|}.
Proof. all: reflexivity. Defined.

Section Dicts.
Context `{PyIteration}.

(** [d.values()], in the order of [d.keys()] *)
Definition dict_values {V} (d : gmap string V) : list V :=
  omap (λ key, d !! key) (dict_keys d).

(** [{key: d[key] for key in keys}], built up in [acc] *)
Fixpoint dict_comprehension {V} (keys : list string) (d acc : gmap string V)
  : result (gmap string V) :=
  match keys with
  | [] => Ok acc
  | key :: keys' =>
      v ← getitem d key;
      dict_comprehension keys' d (<[key := v]> acc)
  end.

(** [any(k in d for k in s)] for a set [s] *)
Definition any_in {V} (s : gset string) (d : gmap string V) : bool :=
  existsb (contains d) (set_iter s).

(** [s.intersection(d.keys())] *)
Definition intersection_keys {V} (s : gset string) (d : gmap string V)
  : gset string :=
  s ∩ list_to_set (dict_keys d).
End Dicts.

(** ** The mesh object returned by [meshio.read] *)

Section Mesh.
(** The code never looks inside the per-block cell data or the field
    data. *)
Context {CellData FieldData : Type}.
Context `{PyIteration}.

Record Mesh : Type := MkMesh {
  points : ndarray float;
  cells : gmap string (ndarray Z);
  point_data : gmap string (ndarray float);
  cell_data : gmap string CellData;
  field_data : FieldData
}.

Definition two_d_cells : gset string := list_to_set ["triangle"; "quad"].
Definition three_d_cells : gset string :=
  list_to_set
    ["tetra"; "hexahedron"; "wedge"; "pyramid"; "penta_prism"; "hexa_prism"].

(** *** [if remove_faces:] *)

(** The keys to keep, in the order in which [keep_keys] is iterated. *)
Definition keep_keys (mesh_cells : gmap string (ndarray Z)) : list string :=
  if any_in three_d_cells mesh_cells then
    set_iter (intersection_keys three_d_cells mesh_cells)
  else if any_in two_d_cells mesh_cells then
    set_iter (intersection_keys two_d_cells mesh_cells)
  else dict_keys mesh_cells.

Definition remove_faces_block (mesh : Mesh) : result Mesh :=
  let keys := keep_keys (cells mesh) in
  new_cells ← dict_comprehension keys (cells mesh) ∅;
  new_cell_data ← dict_comprehension keys (cell_data mesh) ∅;
  Ok (MkMesh (points mesh) new_cells (point_data mesh) new_cell_data
        (field_data mesh)).

(** *** [if prune_vertices:] *)

(** The loop [for key in mesh.cells.keys()], with its counter [k]. *)
Fixpoint renumber_cells (uidx : list Z) (keys : list string)
    (mesh_cells : gmap string (ndarray Z)) (k : nat)
  : result (gmap string (ndarray Z)) :=
  match keys with
  | [] => Ok mesh_cells
  | key :: keys' =>
      c ← getitem mesh_cells key;
      let n := np_prod_shape c in
      c' ← np_reshape (np_slice uidx k n) (shape0 c) (shape1 c);
      renumber_cells uidx keys' (<[key := c']> mesh_cells) (k + n)
  end.

(** The loop [for key in mesh.point_data]. *)
Fixpoint reindex_point_data (uvertices : list Z) (keys : list string)
    (mesh_point_data : gmap string (ndarray float))
  : result (gmap string (ndarray float)) :=
  match keys with
  | [] => Ok mesh_point_data
  | key :: keys' =>
      a ← getitem mesh_point_data key;
      a' ← np_take a uvertices;
      reindex_point_data uvertices keys' (<[key := a']> mesh_point_data)
  end.

Definition prune_vertices_block (mesh : Mesh) : result Mesh :=
  parts ← rmapM np_concatenate_rows (dict_values (cells mesh));
  ncells ← np_concatenate parts;
  let '(uvertices, uidx) := np_unique_inverse ncells in
  new_cells ← renumber_cells uidx (dict_keys (cells mesh)) (cells mesh) O;
  new_points ← np_take (points mesh) uvertices;
  new_point_data ←
    reindex_point_data uvertices (dict_keys (point_data mesh))
      (point_data mesh);
  Ok (MkMesh new_points new_cells new_point_data (cell_data mesh)
        (field_data mesh)).

(** *** [if prune_z_0 and ...:] *)

(** [mesh.points.shape[1] == 3 and
     numpy.all(numpy.abs(mesh.points[:, 2]) < 1.0e-13)] *)
Definition z_is_zero (mesh_points : ndarray float) : bool :=
  (shape1 mesh_points =? 3)%nat
  && np_all (map abs_below_tolerance (np_column mesh_points 2)).

Definition prune_z_0_block (mesh : Mesh) : Mesh :=
  if z_is_zero (points mesh) then
    MkMesh (np_columns_upto (points mesh) 2) (cells mesh) (point_data mesh)
      (cell_data mesh) (field_data mesh)
  else mesh.
End Mesh.
Arguments Mesh : clear implicits.

(** ** The world of [generate_mesh], and its monad *)

(** A file system maps the paths of the existing files to their contents. *)
Abbreviation filesystem := (gmap string string).

(** What [generate_mesh] acts on: the files, and the command lines of the
    processes started so far. *)
Record world : Type := World {
  files : filesystem;
  spawned : list (list string)
}.

(** A computation changes the world and returns or raises; the world it
    leaves behind is observed in both cases. *)
Definition io (A : Type) : Type := world → result A * world.

#[global] Instance io_ret : MRet io := λ A a w, (Ok a, w).
#[global] Instance io_bind : MBind io := λ A B k m w,
  match m w with
  | (Ok a, w') => k a w'
  | (Raise e, w') => (Raise e, w')
  end.

Definition lift {A} (r : result A) : io A := λ w, (r, w).

(** [assert cond, msg] *)
Definition assert (cond : bool) (msg : string) : io () :=
  lift (if cond then Ok () else Raise (AssertionError msg)).

(** [with open(path, "w") as f: f.write(text)] *)
Definition write_file (path text : string) : io () :=
  λ w, (Ok (), World (<[path := text]> (files w)) (spawned w)).

(** [os.remove(path)] *)
Definition os_remove (path : string) : io () :=
  λ w, match files w !! path with
       | Some _ => (Ok (), World (delete path (files w)) (spawned w))
       | None => (Raise (FileNotFoundError path), w)
       end.

(** [os.path.isfile(path)] *)
Definition os_path_isfile (path : string) : io bool :=
  λ w, (Ok (bool_decide (is_Some (files w !! path))), w).

Definition _get_gmsh_exe : io string :=
  let macos_gmsh_location := "/Applications/Gmsh.app/Contents/MacOS/gmsh" in
  isfile ← os_path_isfile macos_gmsh_location;
  mret (if isfile : bool then macos_gmsh_location else "gmsh").

Section GenerateMesh.
Context {CellData FieldData : Type}.
Context `{PyIteration}.

(** The collaborators of [generate_mesh]: the name [tempfile] picks for a
    new file with a given suffix, the Gmsh process (its return code and
    what it does to the file system, given its command line), and the
    decoder behind [meshio.read]. *)
Variable tempfile_name : string → filesystem → string.
Variable gmsh_process : list string → filesystem → Z * filesystem.
Variable decode_file : string → filesystem → result (Mesh CellData FieldData).

(** [with tempfile.NamedTemporaryFile(suffix=...) as f: name = f.name]:
    the file is created, and deleted again when the block is left. *)
Definition named_temporary_file (suffix : string) : io string :=
  λ w, let name := tempfile_name suffix (files w) in
       (Ok name, World (delete name (<[name := ""]> (files w))) (spawned w)).

(** [p = subprocess.Popen(argv, ...); p.communicate(); p.returncode] *)
Definition run_process (argv : list string) : io Z :=
  λ w, let '(returncode, fs') := gmsh_process argv (files w) in
       (Ok returncode, World fs' (spawned w ++ [argv])).

(** [meshio.read(path)] *)
Definition meshio_read (path : string) : io (Mesh CellData FieldData) :=
  λ w, (decode_file path (files w), w).

(** The list [args] handed to the engine after the executable. *)
Definition gmsh_args (dim : Z) (geo_filename mesh_file_type msh_filename : string)
    (extra_gmsh_arguments : list string) : list string :=
  (["-" +:+ pretty dim; geo_filename; "-format"; mesh_file_type; "-bin"; "-o";
    msh_filename] ++ extra_gmsh_arguments)%list.

(** The output of the engine and the messages printed by [generate_mesh]
    go to the standard output, which is not part of the model; [verbose]
    only decides whether the output of the engine is echoed.  The list of
    the caller that [+=] extends in place is not part of the model either:
    what is modelled is the list handed to the engine. *)
Definition generate_mesh (geo_code : string) (verbose : bool) (dim : Z)
    (prune_vertices prune_z_0 remove_faces : bool)
    (gmsh_path : option string) (extra_gmsh_arguments : option (list string))
    (geo_filename : option string) (mesh_file_type : string)
  : io (ndarray float * gmap string (ndarray Z) * gmap string (ndarray float)
        * gmap string CellData * FieldData) :=
  let extra_gmsh_arguments := default [] extra_gmsh_arguments in
  let extra_gmsh_arguments :=
    if String.eqb mesh_file_type "mesh"
    then (extra_gmsh_arguments ++ ["-string"; "Mesh.SaveElementTagType=2;"])%list
    else extra_gmsh_arguments in
  let preserve_geo := bool_decide (is_Some geo_filename) in
  geo_filename ← match geo_filename with
                 | None => named_temporary_file ".geo"
                 | Some name => mret name
                 end;
  _ ← write_file geo_filename geo_code;
  msh_filename ← named_temporary_file ("." +:+ mesh_file_type);
  gmsh_executable ← match gmsh_path with
                    | Some path => mret path
                    | None => _get_gmsh_exe
                    end;
  let args :=
    gmsh_args dim geo_filename mesh_file_type msh_filename
      extra_gmsh_arguments in
  returncode ← run_process (gmsh_executable :: args);
  _ ← assert (returncode =? 0)
        ("Gmsh exited with error (return code " +:+ pretty returncode +:+ ").");
  mesh ← meshio_read msh_filename;
  mesh ← lift (if remove_faces then remove_faces_block mesh else Ok mesh);
  mesh ← lift (if prune_vertices then prune_vertices_block mesh else Ok mesh);
  (* clean up *)
  _ ← os_remove msh_filename;
  _ ← (if preserve_geo then mret () else os_remove geo_filename);
  let mesh := if prune_z_0 then prune_z_0_block mesh else mesh in
  mret (points mesh, cells mesh, point_data mesh, cell_data mesh,
        field_data mesh).

(** The statements of [generate_mesh] up to the exit of the engine, as a
    computation of their own: it returns the path of the script, the path
    of the mesh file and the return code of the engine.  [generate_mesh]
    is this computation followed by the assertion on the return code and
    by [decode_and_clean] (lemma [generate_mesh_phases]). *)
Definition invoke_engine (geo_code : string) (dim : Z)
    (gmsh_path : option string) (extra_gmsh_arguments : option (list string))
    (geo_filename : option string) (mesh_file_type : string)
  : io (string * string * Z) :=
  let extra_gmsh_arguments := default [] extra_gmsh_arguments in
  let extra_gmsh_arguments :=
    if String.eqb mesh_file_type "mesh"
    then (extra_gmsh_arguments ++ ["-string"; "Mesh.SaveElementTagType=2;"])%list
    else extra_gmsh_arguments in
  geo_filename ← match geo_filename with
                 | None => named_temporary_file ".geo"
                 | Some name => mret name
                 end;
  _ ← write_file geo_filename geo_code;
  msh_filename ← named_temporary_file ("." +:+ mesh_file_type);
  gmsh_executable ← match gmsh_path with
                    | Some path => mret path
                    | None => _get_gmsh_exe
                    end;
  returncode ←
    run_process
      (gmsh_executable
         :: gmsh_args dim geo_filename mesh_file_type msh_filename
              extra_gmsh_arguments);
  mret (geo_filename, msh_filename, returncode).

(** The statements of [generate_mesh] after the assertion. *)
Definition decode_and_clean (prune_vertices prune_z_0 remove_faces : bool)
    (preserve_geo : bool) (geo_filename msh_filename : string)
  : io (ndarray float * gmap string (ndarray Z) * gmap string (ndarray float)
        * gmap string CellData * FieldData) :=
  mesh ← meshio_read msh_filename;
  mesh ← lift (if remove_faces then remove_faces_block mesh else Ok mesh);
  mesh ← lift (if prune_vertices then prune_vertices_block mesh else Ok mesh);
  _ ← os_remove msh_filename;
  _ ← (if preserve_geo then mret () else os_remove geo_filename);
  let mesh := if prune_z_0 then prune_z_0_block mesh else mesh in
  mret (points mesh, cells mesh, point_data mesh, cell_data mesh,
        field_data mesh).
End GenerateMesh.

(** ** [built_in.spline] *)

(** Python's [sep.join(l)] *)
Fixpoint join (sep : string) (l : list string) : string :=
  match l with
  | [] => ""
  | [x] => x
  | x :: l' => x +:+ sep +:+ join sep l'
  end.

(** The string holds a comma. *)
Fixpoint has_comma (s : string) : bool :=
  match s with
  | EmptyString => false
  | String c s' => Ascii.eqb c ","%char || has_comma s'
  end.

(** The string ["\n"] *)
Definition newline : string := String (Ascii.ascii_of_nat 10) "".

Module Point.
(** What [Spline] reads of a [Point]: its identifier. *)
Record t : Type := Make { id : string }.
End Point.

(** What a caller can put into the [points] argument: an instance of
    [Point], or any other object. *)
Inductive pyobject : Type :=
| PointInstance (p : Point.t)
| OtherInstance (repr : string).

(** [isinstance(c, Point)] *)
Definition isinstance_Point (c : pyobject) : bool :=
  match c with
  | PointInstance _ => true
  | OtherInstance _ => false
  end.

(** [c.id] *)
Definition getattr_id (c : pyobject) : result string :=
  match c with
  | PointInstance p => Ok (Point.id p)
  | OtherInstance _ => Raise (AttributeError "id")
  end.

Module Spline.
Section Init.
(** [LineBase.__init__] is not part of the sources at hand: it gives the
    new object the identifier of the next line.  The counter of lines is
    the state, and the text of the n-th identifier a parameter. *)
Variable line_id : nat → string.

Definition LineBase_init (counter : nat) : string * nat :=
  (line_id counter, S counter).

Record t : Type := Make {
  id : string;
  points : list pyobject;
  code : string
}.

(** [for c in points: assert isinstance(c, Point)] *)
Fixpoint assert_points (points : list pyobject) : result () :=
  match points with
  | [] => Ok ()
  | c :: points' =>
      if isinstance_Point c then assert_points points'
      else Raise (AssertionError "")
  end.

(** [Spline.__init__]; the counter of line identifiers is threaded
    through, and has advanced also when the constructor raises. *)
Definition __init__ (points : list pyobject) (counter : nat)
  : result t * nat :=
  let '(self_id, counter) := LineBase_init counter in
  (_ ← assert_points points;
   _ ← (if (3 <? length points)%nat then Ok ()
        else Raise (AssertionError ""));
   ids ← rmapM getattr_id points;
   Ok (Make self_id points
         (join newline
            [self_id +:+ " = newl;";
             "BSpline(" +:+ self_id +:+ ") = {" +:+ join ", " ids +:+ "};"])),
   counter).
End Init.
End Spline.

(** ** The three cleanup stages, as the specification words them *)

Section Stages.
Context {CellData FieldData : Type}.

(** *** Stage 1: cell filtering by dimension *)

(** The cell types whose blocks are retained: the volumetric ones if any is
    present, else the surface ones if any is present, else all. *)
Definition retained_cell_types (mesh_cells : gmap string (ndarray Z))
  : gset string :=
  if decide (three_d_cells ∩ dom mesh_cells ≠ ∅)
  then three_d_cells ∩ dom mesh_cells
  else if decide (two_d_cells ∩ dom mesh_cells ≠ ∅)
       then two_d_cells ∩ dom mesh_cells
       else dom mesh_cells.

(** The entries of a dict whose key is in [s]. *)
Definition restrict {V} (s : gset string) (d : gmap string V) : gmap string V :=
  filter (λ kv, kv.1 ∈ s) d.

Definition filter_cells_by_dimension (mesh : Mesh CellData FieldData)
  : Mesh CellData FieldData :=
  let keep := retained_cell_types (cells mesh) in
  MkMesh (points mesh) (restrict keep (cells mesh)) (point_data mesh)
    (restrict keep (cell_data mesh)) (field_data mesh).

(** *** Stage 2: pruning of orphan vertices *)

(** The vertex indices referenced by some cell block. *)
Definition referenced_vertices (mesh_cells : gmap string (ndarray Z)) : gset Z :=
  list_to_set (concat ((λ kc, concat (rows kc.2)) <$> map_to_list mesh_cells)).

(** The indices of the points that survive, in the order of the points. *)
Definition surviving_vertices (npoints : nat) (referenced : gset Z) : list Z :=
  filter (λ i, i ∈ referenced) (Z.of_nat <$> seq 0 npoints).

(** The dense numbering of the survivors: the new index of a vertex is the
    number of survivors before it. *)
Definition new_index (survivors : list Z) (i : Z) : Z :=
  Z.of_nat (length (filter (λ j, j < i) survivors)).

(** The rows of an array at the given positions. *)
Definition select_rows {A} (a : ndarray A) (survivors : list Z) : ndarray A :=
  NdArray (shape1 a) (omap (λ i, rows a !! Z.to_nat i) survivors).

(** An array with [f] applied to every element. *)
Definition map_ndarray {A B} (f : A → B) (a : ndarray A) : ndarray B :=
  NdArray (shape1 a) (map (map f) (rows a)).

Definition prune_orphan_vertices (mesh : Mesh CellData FieldData)
  : Mesh CellData FieldData :=
  let survivors :=
    surviving_vertices (shape0 (points mesh)) (referenced_vertices (cells mesh)) in
  MkMesh (select_rows (points mesh) survivors)
    (map_ndarray (new_index survivors) <$> cells mesh)
    ((λ a, select_rows a survivors) <$> point_data mesh)
    (cell_data mesh) (field_data mesh).

(** *** Stage 3: collapse of a flat third axis *)

(** The third coordinate of a point is within the tolerance of zero. *)
Definition third_coordinate_near_zero (point : list float) : bool :=
  from_option abs_below_tolerance true (point !! 2%nat).

Definition collapse_flat_axis (mesh : Mesh CellData FieldData)
  : Mesh CellData FieldData :=
  if (shape1 (points mesh) =? 3)%nat
     && forallb third_coordinate_near_zero (rows (points mesh))
  then MkMesh (NdArray 2 (map (take 2) (rows (points mesh)))) (cells mesh)
         (point_data mesh) (cell_data mesh) (field_data mesh)
  else mesh.
End Stages.

(** ** The claim on the files left after a failure of the engine *)

(** "Whenever the engine exits with a status other than zero,
    [generate_mesh] raises, and neither the mesh file nor (unless the
    caller named it, to keep it) the script is left behind." *)
Definition engine_failure_cleans_up : Prop :=
  ∀ (tempfile_name : string → filesystem → string)
    (gmsh_process : list string → filesystem → Z * filesystem)
    (decode_file : string → filesystem → result (Mesh () ()))
    geo_code verbose dim prune_vertices prune_z_0 remove_faces gmsh_path
    extra_gmsh_arguments geo_filename mesh_file_type w geo msh returncode w1,
    invoke_engine tempfile_name gmsh_process geo_code dim gmsh_path
      extra_gmsh_arguments geo_filename mesh_file_type w
    = (Ok (geo, msh, returncode), w1) →
    returncode ≠ 0 →
    ∃ e w',
      generate_mesh tempfile_name gmsh_process decode_file geo_code verbose dim
        prune_vertices prune_z_0 remove_faces gmsh_path extra_gmsh_arguments
        geo_filename mesh_file_type w = (Raise e, w')
      ∧ files w' !! msh = None
      ∧ (geo_filename = None → files w' !! geo = None).

(** ** Concrete collaborators and meshes, for the examples *)

Module Sample.
(** Temporary files are called [/tmp/tmpq1] plus the suffix. *)
Definition tempfile_name (suffix : string) (fs : filesystem) : string :=
  "/tmp/tmpq1" +:+ suffix.

(** An engine that writes nothing and exits with status 1. *)
Definition gmsh_failing (argv : list string) (fs : filesystem)
  : Z * filesystem := (1, fs).

(** The argument that follows [-o] on a command line. *)
Fixpoint output_path (argv : list string) : string :=
  match argv with
  | [] => ""
  | flag :: argv' =>
      if String.eqb flag "-o" then hd "" argv' else output_path argv'
  end.

(** An engine that writes its output file and exits with status 0. *)
Definition gmsh_meshing (argv : list string) (fs : filesystem)
  : Z * filesystem := (0, <[output_path argv := "$MeshFormat"]> fs).

(** A decoder that returns [mesh] for every file that exists. *)
Definition decode_as {CellData FieldData} (mesh : Mesh CellData FieldData)
    (path : string) (fs : filesystem) : result (Mesh CellData FieldData) :=
  match fs !! path with
  | Some _ => Ok mesh
  | None => Raise (ReadError path)
  end.

Definition empty_mesh : Mesh () () :=
  MkMesh (NdArray 3 []) ∅ ∅ ∅ ().

Definition empty_world : world := World ∅ [].

(** Line identifiers are [l0], [l1], ... *)
Definition line_id (n : nat) : string := "l" +:+ pretty n.

(** Four points [p0], ..., [p3]. *)
Definition four_points : list Point.t :=
  [Point.Make "p0"; Point.Make "p1"; Point.Make "p2"; Point.Make "p3"].

(** Ten points on the plane [z = 0]; a tetra block that references the
    points 1, 3, 5 and 7, and a triangle block of two faces. *)
Definition raw_mesh : Mesh (list Z) (list (string * Z)) :=
  MkMesh
    (NdArray 3
       [[0%float; 0%float; 0%float]; [1%float; 0%float; 0%float];
        [2%float; 0%float; 0%float]; [3%float; 1%float; 0%float];
        [4%float; 1%float; 0%float]; [5%float; 1%float; 0%float];
        [6%float; 2%float; 0%float]; [7%float; 2%float; 0%float];
        [8%float; 2%float; 0%float]; [9%float; 3%float; 0%float]])
    (<["tetra" := NdArray 4 [[7; 1; 5; 3]]]>
       (<["triangle" := NdArray 3 [[0; 1; 2]; [2; 3; 4]]]> ∅))
    {["temperature" :=
        NdArray 1
          [[0%float]; [10%float]; [20%float]; [30%float]; [40%float];
           [50%float]; [60%float]; [70%float]; [80%float]; [90%float]]]}
    (<["tetra" := [1]]> (<["triangle" := [2; 2]]> ∅))
    [("solid", 3)].

(** [raw_mesh] after the block of [remove_faces]. *)
Definition volume_mesh : Mesh (list Z) (list (string * Z)) :=
  MkMesh (points raw_mesh)
    {["tetra" := NdArray 4 [[7; 1; 5; 3]]]}
    (point_data raw_mesh)
    {["tetra" := [1]]}
    (field_data raw_mesh).

(** [volume_mesh] after the block of [prune_vertices]. *)
Definition pruned_mesh : Mesh (list Z) (list (string * Z)) :=
  MkMesh
    (NdArray 3
       [[1%float; 0%float; 0%float]; [3%float; 1%float; 0%float];
        [5%float; 1%float; 0%float]; [7%float; 2%float; 0%float]])
    {["tetra" := NdArray 4 [[3; 0; 2; 1]]]}
    {["temperature" :=
        NdArray 1 [[10%float]; [30%float]; [50%float]; [70%float]]]}
    {["tetra" := [1]]}
    [("solid", 3)].

(** [pruned_mesh] after the block of [prune_z_0]. *)
Definition plane_mesh : Mesh (list Z) (list (string * Z)) :=
  MkMesh
    (NdArray 2
       [[1%float; 0%float]; [3%float; 1%float]; [5%float; 1%float];
        [7%float; 2%float]])
    (cells pruned_mesh) (point_data pruned_mesh) (cell_data pruned_mesh)
    (field_data pruned_mesh).

(** [pruned_mesh] with the third point lifted off the plane by [1.0e-6]. *)
Definition lifted_mesh : Mesh (list Z) (list (string * Z)) :=
  MkMesh
    (NdArray 3
       [[1%float; 0%float; 0%float]; [3%float; 1%float; 0%float];
        [5%float; 1%float; one_millionth];
        [7%float; 2%float; 0%float]])
    (cells pruned_mesh) (point_data pruned_mesh) (cell_data pruned_mesh)
    (field_data pruned_mesh).

(** [volume_mesh] with a cell that refers to a point that does not exist. *)
Definition dangling_mesh : Mesh (list Z) (list (string * Z)) :=
  MkMesh (points raw_mesh)
    {["tetra" := NdArray 4 [[7; 1; 5; 12]]]}
    (point_data raw_mesh)
    {["tetra" := [1]]}
    (field_data raw_mesh).

(** [volume_mesh] with its first point, an orphan, lifted off the plane. *)
Definition bumpy_mesh : Mesh (list Z) (list (string * Z)) :=
  MkMesh
    (NdArray 3
       [[0%float; 0%float; 1%float]; [1%float; 0%float; 0%float];
        [2%float; 0%float; 0%float]; [3%float; 1%float; 0%float];
        [4%float; 1%float; 0%float]; [5%float; 1%float; 0%float];
        [6%float; 2%float; 0%float]; [7%float; 2%float; 0%float];
        [8%float; 2%float; 0%float]; [9%float; 3%float; 0%float]])
    (cells volume_mesh) (point_data volume_mesh) (cell_data volume_mesh)
    (field_data volume_mesh).

(** [raw_mesh] as a decoder without cell data returns it. *)
Definition bare_mesh : Mesh (list Z) (list (string * Z)) :=
  MkMesh (points raw_mesh) (cells raw_mesh) (point_data raw_mesh) ∅
    (field_data raw_mesh).

(** An engine that exits with status 0 and writes nothing. *)
Definition gmsh_idle (argv : list string) (fs : filesystem)
  : Z * filesystem := (0, fs).

(** The world after a run of [generate_mesh] on [empty_world] with the
    engine [gmsh_meshing], for the format [msh] and no other option. *)
Definition world_after_run : world :=
  World ∅
    [["gmsh"; "-3"; "/tmp/tmpq1.geo"; "-format"; "msh"; "-bin"; "-o";
      "/tmp/tmpq1.msh"]].
End Sample.

(** * Properties *)

(** ** The monads *)

Lemma rbind_Ok {A B} (r : result A) (k : A → result B) (b : B) :
  (r ≫= k) = Ok b ↔ ∃ a, r = Ok a ∧ k a = Ok b.
Proof.
  destruct r as [a|e]; simpl.
  - split; [eauto | by intros (? & [= <-] & ?)].
  - split; [done | by intros (? & ? & ?)].
Qed.

Ltac inv_result :=
  repeat match goal with
    | H : (_ ≫= _) = Ok _ |- _ =>
        apply rbind_Ok in H; destruct H as (? & ? & H)
    | H : Ok _ = Ok _ |- _ => injection H as H
    | H : Raise _ = Ok _ |- _ => discriminate H
    | H : mret _ = Ok _ |- _ => injection H as H
    end.

(** ** [numpy.unique] *)

Lemma elem_of_insert_unique (x y : Z) (l : list Z) :
  y ∈ insert_unique x l ↔ y = x ∨ y ∈ l.
Proof.
  induction l as [|z l IH]; simpl.
  - rewrite list_elem_of_singleton, elem_of_nil. tauto.
  - destruct (Z.ltb_spec x z); [apply elem_of_cons|].
    destruct (Z.eqb_spec x z) as [->|]; [rewrite elem_of_cons; tauto|].
    rewrite !elem_of_cons, IH. tauto.
Qed.

Lemma filter_lt_nil (x : Z) (l : list Z) :
  Forall (Z.lt x) l → filter (λ y, y < x) l = [].
Proof.
  induction 1 as [|y l Hy Hl IH]; [done|].
  by rewrite filter_cons_False by lia.
Qed.

Lemma insert_unique_sorted (x : Z) (l : list Z) :
  StronglySorted Z.lt l → StronglySorted Z.lt (insert_unique x l).
Proof.
  induction 1 as [|z l Hl IH Hz]; simpl.
  - repeat constructor.
  - destruct (Z.ltb_spec x z).
    + constructor; [by constructor|].
      constructor; [done|]. eapply Forall_impl; [exact Hz|]. simpl. lia.
    + destruct (Z.eqb_spec x z); [by constructor|].
      constructor; [done|]. apply Forall_forall.
      intros y [->|Hy]%elem_of_insert_unique; [lia|].
      rewrite Forall_forall in Hz. by apply Hz.
Qed.

Lemma np_unique_sorted (a : list Z) : StronglySorted Z.lt (np_unique a).
Proof.
  induction a as [|x a IH]; simpl; [constructor|].
  by apply insert_unique_sorted.
Qed.

Lemma elem_of_np_unique (a : list Z) (x : Z) : x ∈ np_unique a ↔ x ∈ a.
Proof.
  induction a as [|y a IH]; simpl; [done|].
  rewrite elem_of_insert_unique, elem_of_cons, IH. tauto.
Qed.

Lemma index_of_lookup (x : Z) (l : list Z) :
  x ∈ l → l !! index_of x l = Some x.
Proof.
  induction l as [|y l IH]; simpl; [by intros ?%not_elem_of_nil|].
  destruct (Z.eqb_spec x y) as [->|Hne]; [done|].
  intros [?|?]%elem_of_cons; [done | by apply IH].
Qed.

(** In a strictly increasing list the position of an element is the number
    of elements below it. *)
Lemma index_of_sorted (x : Z) (l : list Z) :
  StronglySorted Z.lt l → x ∈ l →
  index_of x l = length (filter (λ y, y < x) l).
Proof.
  induction 1 as [|y l Hl IH Hy]; simpl; [by intros ?%not_elem_of_nil|].
  rewrite Forall_forall in Hy.
  destruct (Z.eqb_spec x y) as [->|Hne].
  - intros _. rewrite filter_cons_False by lia.
    by rewrite filter_lt_nil by by apply Forall_forall.
  - intros [?|Hx]%elem_of_cons; [done|].
    specialize (Hy _ Hx). rewrite filter_cons_True by lia. simpl.
    by rewrite IH.
Qed.

Lemma sorted_lt_ext (l1 l2 : list Z) :
  StronglySorted Z.lt l1 → StronglySorted Z.lt l2 →
  (∀ x, x ∈ l1 ↔ x ∈ l2) → l1 = l2.
Proof.
  intros Hl1 Hl2 Hext. apply StronglySorted_unique_strong with (R := Z.lt);
    [intros; lia | done | done |].
  apply NoDup_Permutation; [| |done].
  - clear -Hl1. induction Hl1 as [|x l Hl IH Hx]; constructor; [|done].
    rewrite Forall_forall in Hx. intros Hin%Hx. lia.
  - clear -Hl2. induction Hl2 as [|x l Hl IH Hx]; constructor; [|done].
    rewrite Forall_forall in Hx. intros Hin%Hx. lia.
Qed.

(** In a strictly increasing list, the number of elements below the one at
    position [j] is [j]. *)
Lemma sorted_lookup_count (l : list Z) (j : nat) (x : Z) :
  StronglySorted Z.lt l → l !! j = Some x →
  length (filter (λ y, y < x) l) = j.
Proof.
  intros Hl. revert j. induction Hl as [|y l Hl IH Hy]; intros j; [done|].
  destruct j as [|j]; simpl.
  - intros [= ->]. rewrite filter_cons_False by lia.
    by rewrite filter_lt_nil.
  - intros Hx. rewrite Forall_forall in Hy.
    assert (y < x) by (apply Hy; by eapply list_elem_of_lookup_2).
    rewrite filter_cons_True by done. simpl. by rewrite (IH _ Hx).
Qed.

Lemma omap_total_lookup {A B} (f : A → option B) (l : list A) (j : nat) :
  (∀ x, x ∈ l → is_Some (f x)) → omap f l !! j = l !! j ≫= f.
Proof.
  revert j. induction l as [|x l IH]; intros j Hall; [done|]. simpl.
  destruct (Hall x) as [y Hy]; [by left|]. rewrite Hy.
  destruct j as [|j]; simpl; [done|]. apply IH. intros x' ?. apply Hall. by right.
Qed.

Lemma omap_total_length {A B} (f : A → option B) (l : list A) :
  (∀ x, x ∈ l → is_Some (f x)) → length (omap f l) = length l.
Proof.
  induction l as [|x l IH]; intros Hall; [done|]. simpl.
  destruct (Hall x) as [y Hy]; [by left|]. rewrite Hy. simpl.
  f_equal. apply IH. intros x' ?. apply Hall. by right.
Qed.

Lemma surviving_vertices_sorted (npoints : nat) (referenced : gset Z) :
  StronglySorted Z.lt (surviving_vertices npoints referenced).
Proof.
  unfold surviving_vertices. generalize 0%nat as start.
  induction npoints as [|n IH]; intros start; simpl; [constructor|].
  assert (Hrest : Forall (Z.lt (Z.of_nat start))
                    (filter (λ i, i ∈ referenced) (Z.of_nat <$> seq (S start) n))).
  { apply Forall_forall. intros i [_ Hi]%list_elem_of_filter.
    apply list_elem_of_fmap in Hi as (j & -> & Hj%elem_of_seq). lia. }
  rewrite filter_cons. case_decide; [constructor|]; auto.
Qed.

Lemma elem_of_surviving_vertices (npoints : nat) (referenced : gset Z) (i : Z) :
  i ∈ surviving_vertices npoints referenced
  ↔ i ∈ referenced ∧ 0 ≤ i < Z.of_nat npoints.
Proof.
  unfold surviving_vertices.
  rewrite list_elem_of_filter, list_elem_of_fmap. apply and_iff_compat_l. split.
  - intros (j & -> & Hj%elem_of_seq). lia.
  - intros Hi. exists (Z.to_nat i). rewrite elem_of_seq. lia.
Qed.

(** ** Iteration over dicts and sets *)

Section DictFacts.
Context `{PyIteration}.

Lemma elem_of_dict_keys {V} (d : gmap string V) (k : string) :
  k ∈ dict_keys d ↔ is_Some (d !! k).
Proof.
  rewrite dict_keys_perm, list_elem_of_fmap. split.
  - intros ([k' v] & -> & Hkv). apply elem_of_map_to_list in Hkv. eauto.
  - intros [v Hv]. exists (k, v). by rewrite elem_of_map_to_list.
Qed.

Lemma NoDup_dict_keys {V} (d : gmap string V) : NoDup (dict_keys d).
Proof. rewrite dict_keys_perm. apply NoDup_fst_map_to_list. Qed.

Lemma elem_of_set_iter (s : gset string) (k : string) : k ∈ set_iter s ↔ k ∈ s.
Proof. by rewrite set_iter_perm, elem_of_elements. Qed.

Lemma any_in_true {V} (s : gset string) (d : gmap string V) :
  any_in s d = true ↔ ∃ k, k ∈ s ∧ is_Some (d !! k).
Proof.
  unfold any_in, contains. rewrite existsb_exists. split.
  - intros (k & Hk%list_elem_of_In%elem_of_set_iter & Hd%bool_decide_eq_true).
    eauto.
  - intros (k & Hk & Hd). exists k.
    by rewrite <- list_elem_of_In, elem_of_set_iter, bool_decide_eq_true.
Qed.

Lemma any_in_false {V} (s : gset string) (d : gmap string V) :
  any_in s d = false ↔ ¬ ∃ k, k ∈ s ∧ is_Some (d !! k).
Proof. rewrite <- any_in_true. by destruct (any_in s d). Qed.

Lemma elem_of_intersection_keys {V} (s : gset string) (d : gmap string V) k :
  k ∈ intersection_keys s d ↔ k ∈ s ∧ is_Some (d !! k).
Proof.
  unfold intersection_keys.
  by rewrite elem_of_intersection, elem_of_list_to_set, elem_of_dict_keys.
Qed.

Lemma getitem_Ok {V} (d : gmap string V) key v :
  getitem d key = Ok v ↔ d !! key = Some v.
Proof. unfold getitem. destruct (d !! key); naive_solver. Qed.

(** A dict comprehension that returns has copied exactly the entries of the
    keys it ran over. *)
Lemma dict_comprehension_lookup {V} keys (d acc d' : gmap string V) :
  dict_comprehension keys d acc = Ok d' →
  ∀ k, d' !! k = if decide (k ∈ keys) then d !! k else acc !! k.
Proof.
  revert acc. induction keys as [|key keys IH]; intros acc Hd' k; simpl in *.
  - by injection Hd' as <-.
  - inv_result. rewrite (IH _ Hd' k).
    match goal with Hg : getitem _ _ = _ |- _ => apply getitem_Ok in Hg end.
    destruct (decide (k = key)) as [->|Hne].
    + rewrite (decide_True (P := key ∈ key :: keys)) by left.
      case_decide; [done|]. by rewrite lookup_insert_eq.
    + rewrite lookup_insert_ne by done.
      destruct (decide (k ∈ keys)) as [Hin|Hout].
      * by rewrite decide_True by (by right).
      * by rewrite decide_False by (by intros [?|?]%elem_of_cons).
Qed.

(** It returns if and only if the source has all the keys. *)
Lemma dict_comprehension_returns {V} keys (d acc : gmap string V) :
  (∃ d', dict_comprehension keys d acc = Ok d')
  ↔ ∀ k, k ∈ keys → is_Some (d !! k).
Proof.
  revert acc. induction keys as [|key keys IH]; intros acc; simpl.
  - split; [by intros _ k ?%not_elem_of_nil | eauto].
  - unfold getitem. destruct (d !! key) as [v|] eqn:Hkey; simpl.
    + rewrite IH. split.
      * intros Hall k [->|?]%elem_of_cons; eauto.
      * intros Hall k ?. apply Hall. by right.
    + split; [by intros [? ?]|].
      intros Hall. destruct (Hall key) as [? ?]; [by left | congruence].
Qed.
End DictFacts.

(** ** What the blocks leave alone *)

Section Frame.
Context {CellData FieldData : Type}.
Context `{PyIteration}.
Implicit Types mesh : Mesh CellData FieldData.

Lemma remove_faces_block_frame mesh mesh' :
  remove_faces_block mesh = Ok mesh' →
  points mesh' = points mesh ∧ point_data mesh' = point_data mesh
  ∧ field_data mesh' = field_data mesh.
Proof. unfold remove_faces_block. intros Hb. inv_result. by subst. Qed.

Lemma prune_vertices_block_frame mesh mesh' :
  prune_vertices_block mesh = Ok mesh' →
  cell_data mesh' = cell_data mesh ∧ field_data mesh' = field_data mesh.
Proof.
  unfold prune_vertices_block, np_unique_inverse. intros Hb.
  inv_result. by subst.
Qed.

Lemma prune_z_0_block_frame mesh :
  cells (prune_z_0_block mesh) = cells mesh
  ∧ point_data (prune_z_0_block mesh) = point_data mesh
  ∧ cell_data (prune_z_0_block mesh) = cell_data mesh
  ∧ field_data (prune_z_0_block mesh) = field_data mesh.
Proof. unfold prune_z_0_block. by destruct (z_is_zero _). Qed.
End Frame.

(** ** The block [if remove_faces:] *)

Section RemoveFaces.
Context {CellData FieldData : Type}.
Context `{PyIteration}.
Implicit Types mesh : Mesh CellData FieldData.

(** The keys that are kept, whatever the order of iteration. *)
Lemma elem_of_keep_keys (mesh_cells : gmap string (ndarray Z)) (k : string) :
  k ∈ keep_keys mesh_cells ↔
  is_Some (mesh_cells !! k)
  ∧ (if any_in three_d_cells mesh_cells then k ∈ three_d_cells
     else if any_in two_d_cells mesh_cells then k ∈ two_d_cells
     else True).
Proof.
  unfold keep_keys.
  destruct (any_in three_d_cells mesh_cells);
    [|destruct (any_in two_d_cells mesh_cells)];
    rewrite ?elem_of_set_iter, ?elem_of_intersection_keys, ?elem_of_dict_keys;
    tauto.
Qed.

Lemma remove_faces_block_lookup mesh mesh' :
  remove_faces_block mesh = Ok mesh' →
  ∀ k,
    cells mesh' !! k
    = (if decide (k ∈ keep_keys (cells mesh)) then cells mesh !! k else None)
    ∧ cell_data mesh' !! k
      = (if decide (k ∈ keep_keys (cells mesh)) then cell_data mesh !! k
         else None)
    ∧ (k ∈ keep_keys (cells mesh) → is_Some (cell_data mesh !! k)).
Proof.
  unfold remove_faces_block. intros Hb k. inv_result. subst mesh'. simpl.
  match goal with
  | Hc : dict_comprehension _ (cells _) _ = _,
    Hd : dict_comprehension _ (cell_data _) _ = _ |- _ =>
      rewrite (dict_comprehension_lookup _ _ _ _ Hc k),
        (dict_comprehension_lookup _ _ _ _ Hd k);
      pose proof (proj1 (dict_comprehension_returns _ _ _) (ex_intro _ _ Hd))
        as Hall
  end.
  split_and!; [done..|]. intros Hk. by apply Hall.
Qed.

(** The block returns if and only if [mesh.cell_data] has an entry for
    every block that is kept. *)
Lemma remove_faces_block_returns mesh :
  (∃ mesh', remove_faces_block mesh = Ok mesh')
  ↔ ∀ k, k ∈ keep_keys (cells mesh) → is_Some (cell_data mesh !! k).
Proof.
  split.
  - intros [mesh' Hb] k. by apply (remove_faces_block_lookup _ _ Hb k).
  - intros Hall. unfold remove_faces_block.
    destruct (proj2 (dict_comprehension_returns (keep_keys (cells mesh))
                       (cells mesh) ∅)) as [c ->].
    { by intros k [? _]%elem_of_keep_keys. }
    destruct (proj2 (dict_comprehension_returns (keep_keys (cells mesh))
                       (cell_data mesh) ∅) Hall) as [cd ->].
    simpl. eauto.
Qed.

(** C2: when a block of a volumetric cell type is present, the blocks kept
    are exactly those of the volumetric cell types; otherwise, when a block
    of a surface cell type is present, exactly those of the surface cell
    types; otherwise the blocks are unchanged.  In particular a mesh with a
    tetra block loses its triangle block and keeps the tetra block. *)
Theorem remove_faces_block_cells mesh mesh' :
  remove_faces_block mesh = Ok mesh' →
  let present (s : gset string) := ∃ k, k ∈ s ∧ is_Some (cells mesh !! k) in
  (present three_d_cells →
   cells mesh' = filter (λ kv, kv.1 ∈ three_d_cells) (cells mesh))
  ∧ (¬ present three_d_cells → present two_d_cells →
     cells mesh' = filter (λ kv, kv.1 ∈ two_d_cells) (cells mesh))
  ∧ (¬ present three_d_cells → ¬ present two_d_cells →
     cells mesh' = cells mesh)
  ∧ (is_Some (cells mesh !! "tetra") →
     cells mesh' !! "tetra" = cells mesh !! "tetra"
     ∧ cells mesh' !! "triangle" = None).
Proof.
  intros Hb present.
  assert (Hlook : ∀ k, cells mesh' !! k
            = if decide (k ∈ keep_keys (cells mesh)) then cells mesh !! k
              else None).
  { intros k. by apply (remove_faces_block_lookup _ _ Hb k). }
  assert (H3 : present three_d_cells →
               cells mesh' = filter (λ kv, kv.1 ∈ three_d_cells) (cells mesh)).
  { intros Hp%any_in_true. apply map_eq. intros k. rewrite Hlook.
    pose proof (elem_of_keep_keys (cells mesh) k) as Hk. rewrite Hp in Hk.
    destruct (cells mesh !! k) as [c|] eqn:Hc.
    - destruct (decide (k ∈ three_d_cells)) as [Hin|Hout].
      + rewrite decide_True by (apply Hk; eauto). symmetry.
        by apply map_lookup_filter_Some.
      + rewrite decide_False by (rewrite Hk; tauto). symmetry.
        apply map_lookup_filter_None. right. intros c' _. done.
    - case_decide; symmetry; apply map_lookup_filter_None; by left. }
  split_and!; [done|..].
  - intros Hn%any_in_false Hp%any_in_true. apply map_eq. intros k.
    rewrite Hlook.
    pose proof (elem_of_keep_keys (cells mesh) k) as Hk. rewrite Hn, Hp in Hk.
    destruct (cells mesh !! k) as [c|] eqn:Hc.
    + destruct (decide (k ∈ two_d_cells)) as [Hin|Hout].
      * rewrite decide_True by (apply Hk; eauto). symmetry.
        by apply map_lookup_filter_Some.
      * rewrite decide_False by (rewrite Hk; tauto). symmetry.
        apply map_lookup_filter_None. right. intros c' _. done.
    + case_decide; symmetry; apply map_lookup_filter_None; by left.
  - intros Hn3%any_in_false Hn2%any_in_false. apply map_eq. intros k.
    rewrite Hlook.
    pose proof (elem_of_keep_keys (cells mesh) k) as Hk. rewrite Hn3, Hn2 in Hk.
    destruct (cells mesh !! k) as [c|] eqn:Hc.
    + rewrite decide_True; [done|]. apply Hk. eauto.
    + by case_decide.
  - intros Htetra.
    assert (present three_d_cells) as Hp.
    { exists "tetra". split; [|done]. unfold three_d_cells. set_solver. }
    rewrite (H3 Hp). split.
    + destruct Htetra as [c Hc]. rewrite Hc.
      apply map_lookup_filter_Some. split; [done|].
      unfold three_d_cells. simpl. set_solver.
    + apply map_lookup_filter_None. right. intros c _. simpl.
      unfold three_d_cells. rewrite elem_of_list_to_set.
      intros Hin. repeat (apply elem_of_cons in Hin as [Hin|Hin]; [done|]).
      by apply not_elem_of_nil in Hin.
Qed.

(** C10: after the block, [mesh.cell_data] has exactly the keys of
    [mesh.cells], with the data they had before. *)
Theorem remove_faces_block_cell_data mesh mesh' :
  remove_faces_block mesh = Ok mesh' →
  dom (cell_data mesh') = dom (cells mesh')
  ∧ (∀ k, is_Some (cells mesh' !! k) → cell_data mesh' !! k = cell_data mesh !! k)
  ∧ (∀ k, cells mesh' !! k = None → cell_data mesh' !! k = None).
Proof.
  intros Hb.
  assert (Hdom : ∀ k, is_Some (cell_data mesh' !! k) ↔ is_Some (cells mesh' !! k)).
  { intros k. destruct (remove_faces_block_lookup _ _ Hb k) as (-> & -> & Hcd).
    case_decide as Hk; [|done]. split; [|by auto].
    intros _. by apply elem_of_keep_keys in Hk as [? _]. }
  split_and!.
  - apply set_eq. intros k. by rewrite !elem_of_dom.
  - intros k. destruct (remove_faces_block_lookup _ _ Hb k) as (-> & -> & _).
    case_decide; [done|]. by intros [? ?].
  - intros k Hnone. apply eq_None_not_Some. rewrite Hdom, Hnone.
    by intros [? ?].
Qed.

Lemma any_in_dom {V} (s : gset string) (d : gmap string V) :
  any_in s d = true ↔ s ∩ dom d ≠ ∅.
Proof.
  rewrite any_in_true. split.
  - intros (k & Hk & Hd%elem_of_dom) Hempty.
    apply (not_elem_of_empty (C := gset string) k). rewrite <- Hempty.
    by apply elem_of_intersection.
  - intros (k & [Hk Hd%elem_of_dom]%elem_of_intersection)%set_choose_L. eauto.
Qed.

Lemma elem_of_retained_cell_types (mesh_cells : gmap string (ndarray Z)) k :
  k ∈ keep_keys mesh_cells ↔ k ∈ retained_cell_types mesh_cells.
Proof.
  rewrite elem_of_keep_keys. unfold retained_cell_types.
  destruct (any_in three_d_cells mesh_cells) eqn:H3.
  { apply any_in_dom in H3. rewrite decide_True by done.
    rewrite elem_of_intersection, elem_of_dom. tauto. }
  assert (¬ three_d_cells ∩ dom mesh_cells ≠ ∅) as Hn3.
  { rewrite <- any_in_dom. congruence. }
  rewrite decide_False by done.
  destruct (any_in two_d_cells mesh_cells) eqn:H2.
  { apply any_in_dom in H2. rewrite decide_True by done.
    rewrite elem_of_intersection, elem_of_dom. tauto. }
  assert (¬ two_d_cells ∩ dom mesh_cells ≠ ∅) as Hn2.
  { rewrite <- any_in_dom. congruence. }
  rewrite decide_False by done. rewrite elem_of_dom. tauto.
Qed.

Lemma lookup_restrict {V} (s : gset string) (d : gmap string V) (k : string) :
  restrict s d !! k = if decide (k ∈ s) then d !! k else None.
Proof.
  unfold restrict. case_decide as Hk.
  - destruct (d !! k) as [v|] eqn:Hv.
    + by apply map_lookup_filter_Some.
    + apply map_lookup_filter_None. by left.
  - apply map_lookup_filter_None. right. by intros v _.
Qed.

(** The block refines the filtering stage of the specification. *)
Lemma remove_faces_block_refines mesh mesh' :
  remove_faces_block mesh = Ok mesh' → mesh' = filter_cells_by_dimension mesh.
Proof.
  intros Hb. pose proof (remove_faces_block_lookup _ _ Hb) as Hlook.
  apply remove_faces_block_frame in Hb as (Hp & Hpd & Hfd).
  destruct mesh' as [p c pd cd fd]. simpl in *. subst p pd fd.
  unfold filter_cells_by_dimension. f_equal.
  - apply map_eq. intros k. destruct (Hlook k) as (-> & _ & _).
    rewrite lookup_restrict.
    destruct (decide (k ∈ keep_keys (cells mesh))) as [Hk|Hk].
    + by rewrite decide_True by by apply elem_of_retained_cell_types.
    + by rewrite decide_False by by rewrite <- elem_of_retained_cell_types.
  - apply map_eq. intros k. destruct (Hlook k) as (_ & -> & _).
    rewrite lookup_restrict.
    destruct (decide (k ∈ keep_keys (cells mesh))) as [Hk|Hk].
    + by rewrite decide_True by by apply elem_of_retained_cell_types.
    + by rewrite decide_False by by rewrite <- elem_of_retained_cell_types.
Qed.
End RemoveFaces.

(** ** Arrays *)

Lemma rmapM_Ok {A B} (f : A → result B) (l : list A) (ys : list B) :
  rmapM f l = Ok ys ↔ Forall2 (λ x y, f x = Ok y) l ys.
Proof.
  revert ys. induction l as [|x l IH]; intros ys; simpl.
  - split; [intros [= <-]; constructor | by inversion 1].
  - split.
    + intros Hm. inv_result. subst ys. constructor; [done | by apply IH].
    + inversion 1 as [|? y ? ys' Hx Hl]; subst.
      rewrite Hx. simpl. apply IH in Hl. by rewrite Hl.
Qed.

Lemma elem_of_concat {A} (x : A) (ls : list (list A)) :
  x ∈ concat ls ↔ ∃ l, l ∈ ls ∧ x ∈ l.
Proof.
  induction ls as [|l ls IH]; simpl.
  - rewrite elem_of_nil. split; [done | by intros (l & ?%elem_of_nil & _)].
  - rewrite elem_of_app, IH. split.
    + intros [Hx|(l' & Hl' & Hx)]; [exists l | exists l'];
        rewrite elem_of_cons; auto.
    + intros (l' & [->|Hl']%elem_of_cons & Hx); eauto.
Qed.

Lemma wf_ndarray_length {A} (c : ndarray A) :
  wf_ndarray c → length (concat (rows c)) = np_prod_shape c.
Proof.
  unfold wf_ndarray, np_prod_shape, shape0.
  generalize (shape1 c) as nc. induction (rows c) as [|r rws IH]; intros nc Hwf.
  - done.
  - apply Forall_cons in Hwf as [Hr Hwf]. simpl.
    rewrite length_app, IH with (nc := nc) by done. lia.
Qed.

Lemma chunks_concat {A} (nc : nat) (rws : list (list A)) :
  Forall (λ r, length r = nc) rws → chunks (length rws) nc (concat rws) = rws.
Proof.
  induction 1 as [|r rws Hr Hrws IH]; simpl; [done|].
  by rewrite take_app_length', drop_app_length', IH.
Qed.

(** Reshaping the flattened, renumbered block gives the block renumbered. *)
Lemma np_reshape_concat {A B} (f : A → B) (c : ndarray A) :
  wf_ndarray c →
  np_reshape (f <$> concat (rows c)) (shape0 c) (shape1 c) = Ok (map_ndarray f c).
Proof.
  intros Hwf. unfold np_reshape.
  rewrite length_fmap, (wf_ndarray_length c Hwf).
  unfold np_prod_shape. rewrite Nat.eqb_refl.
  unfold map_ndarray, shape0. f_equal. f_equal.
  assert (f <$> concat (rows c) = concat (map (map f) (rows c))) as ->.
  { induction (rows c) as [|r rws IH]; [done|]. simpl.
    by rewrite fmap_app, IH. }
  rewrite <- (length_map (map f) (rows c)). apply chunks_concat.
  apply Forall_fmap. eapply Forall_impl; [exact Hwf|]. simpl.
  intros r Hr. by rewrite length_map.
Qed.

Lemma map_ndarray_ext {A B} (f g : A → B) (c : ndarray A) :
  (∀ x, x ∈ concat (rows c) → f x = g x) → map_ndarray f c = map_ndarray g c.
Proof.
  unfold map_ndarray. intros Hext. f_equal.
  induction (rows c) as [|r rws IH]; [done|]. simpl in *. f_equal.
  - apply map_ext_in. intros x Hx%list_elem_of_In. apply Hext.
    apply elem_of_app. by left.
  - apply IH. intros x Hx. apply Hext, elem_of_app. by right.
Qed.

Lemma np_getrow_Ok {A} (a : ndarray A) (i : Z) (r : list A) :
  0 ≤ i → np_getrow a i = Ok r ↔ rows a !! Z.to_nat i = Some r.
Proof.
  intros Hi. unfold np_getrow.
  rewrite (proj2 (Z.ltb_ge i 0)) by done.
  rewrite (proj2 (Z.leb_le 0 i)) by done. simpl.
  destruct (Z.ltb_spec i (Z.of_nat (shape0 a))) as [Hlt|Hge].
  - destruct (rows a !! Z.to_nat i); naive_solver.
  - split; [done|]. intros Hr%lookup_lt_Some. unfold shape0 in Hge. lia.
Qed.

(** Selecting rows with indices that are not negative: the rows at these
    positions, all of which exist. *)
Lemma np_take_Ok {A} (a a' : ndarray A) (idx : list Z) :
  Forall (Z.le 0) idx →
  np_take a idx = Ok a' ↔
  a' = select_rows a idx ∧ Forall (λ i, i < Z.of_nat (shape0 a)) idx.
Proof.
  intros Hidx. unfold np_take, select_rows. split.
  - intros Ht. inv_result. subst a'.
    match goal with Hm : rmapM _ _ = _ |- _ => apply rmapM_Ok in Hm; rename Hm into Hrows end.
    match goal with |- {| shape1 := _; rows := ?x |} = _ ∧ _ => revert Hrows; generalize x end.
    induction Hidx as [|i idx Hi Hidx IH]; intros rs; inversion 1 as [|? r ? rs' Hr Hrs]; subst.
    { done. }
    apply np_getrow_Ok in Hr; [|done]. destruct (IH _ Hrs) as [[= ->] Hlt].
    simpl. rewrite Hr. split; [done|]. constructor; [|done].
    apply lookup_lt_Some in Hr. unfold shape0. lia.
  - intros [-> Hlt].
    assert (rmapM (np_getrow a) idx
            = Ok (omap (λ i, rows a !! Z.to_nat i) idx)) as ->; [|done].
    apply rmapM_Ok. induction Hidx as [|i idx Hi Hidx IH]; [constructor|].
    apply Forall_cons in Hlt as [Hi' Hlt]. simpl.
    destruct (lookup_lt_is_Some_2 (rows a) (Z.to_nat i)) as [r Hr].
    { unfold shape0 in Hi'. lia. }
    rewrite Hr. constructor; [by apply np_getrow_Ok | by apply IH].
Qed.

(** ** The block [if prune_vertices:] *)

Section PruneVertices.
Context {CellData FieldData : Type}.
Context `{PyIteration}.
Implicit Types mesh : Mesh CellData FieldData.

Lemma dict_values_lookup {V} (d : gmap string V) :
  Forall2 (λ key v, d !! key = Some v) (dict_keys d) (dict_values d).
Proof.
  unfold dict_values.
  assert (Hall : ∀ key, key ∈ dict_keys d → is_Some (d !! key)).
  { intros key. by rewrite elem_of_dict_keys. }
  induction (dict_keys d) as [|key keys IH]; simpl; [constructor|].
  destruct (Hall key) as [v Hv]; [by left|]. rewrite Hv.
  constructor; [done|]. apply IH. intros key' ?. apply Hall. by right.
Qed.

Lemma elem_of_referenced_vertices (mesh_cells : gmap string (ndarray Z)) (i : Z) :
  i ∈ referenced_vertices mesh_cells
  ↔ ∃ key c, mesh_cells !! key = Some c ∧ i ∈ concat (rows c).
Proof.
  unfold referenced_vertices.
  rewrite elem_of_list_to_set, elem_of_concat. split.
  - intros (l & ([key c] & -> & Hkc%elem_of_map_to_list)%list_elem_of_fmap & Hi).
    eauto.
  - intros (key & c & Hkc & Hi). exists (concat (rows c)). split; [|done].
    apply list_elem_of_fmap. exists (key, c). simpl.
    by rewrite elem_of_map_to_list.
Qed.

(** The loop over the cell blocks: every block is replaced by the block of
    the same shape with [f] applied to its elements, when [uidx] holds the
    images under [f] of the concatenated blocks. *)
Lemma renumber_cells_spec (f : Z → Z) (ncells : list Z) (keys : list string) :
  ∀ (blocks : list (ndarray Z)) (cur : gmap string (ndarray Z)) (k : nat),
    NoDup keys →
    Forall2 (λ key c, cur !! key = Some c) keys blocks →
    Forall wf_ndarray blocks →
    drop k ncells = concat ((λ c, concat (rows c)) <$> blocks) →
    ∃ cur',
      renumber_cells (f <$> ncells) keys cur k = Ok cur'
      ∧ ∀ j, cur' !! j = if decide (j ∈ keys) then map_ndarray f <$> cur !! j
                         else cur !! j.
Proof.
  induction keys as [|key keys IH]; intros blocks cur k Hnd Hblocks Hwf Hdrop.
  - exists cur. split; [done|]. intros j. by rewrite decide_False by apply not_elem_of_nil.
  - inversion Hblocks as [|? c ? blocks' Hc Hblocks']; subst.
    apply NoDup_cons in Hnd as [Hkey Hnd].
    apply Forall_cons in Hwf as [Hwfc Hwf].
    simpl in Hdrop. simpl. unfold getitem. rewrite Hc. simpl.
    assert (Hslice : np_slice (f <$> ncells) k (np_prod_shape c)
                     = f <$> concat (rows c)).
    { unfold np_slice. rewrite <- fmap_drop, <- fmap_take, Hdrop. f_equal.
      apply take_app_length'. by rewrite wf_ndarray_length. }
    rewrite Hslice, np_reshape_concat by done. simpl.
    destruct (IH blocks' (<[key := map_ndarray f c]> cur)
                (k + np_prod_shape c)%nat) as (cur' & -> & Hcur'); [done| |done| |].
    + clear -Hblocks' Hkey. induction Hblocks' as [|key' c' ? ? Hc' ? IH'];
        constructor.
      * rewrite lookup_insert_ne; [done|]. intros ->. apply Hkey. by left.
      * apply IH'. intros Hin. apply Hkey. by right.
    + rewrite <- drop_drop, Hdrop.
      apply drop_app_length'. by rewrite wf_ndarray_length.
    + exists cur'. split; [done|]. intros j. rewrite Hcur'.
      destruct (decide (j = key)) as [->|Hne].
      * rewrite decide_False by done.
        rewrite (decide_True (P := key ∈ key :: keys)) by left.
        by rewrite lookup_insert_eq, Hc.
      * rewrite lookup_insert_ne by done.
        destruct (decide (j ∈ keys)) as [Hin|Hout].
        -- by rewrite decide_True by (by right).
        -- by rewrite decide_False by (by intros [?|?]%elem_of_cons).
Qed.

(** The loop over the point data: every array is replaced by its rows at
    [uvertices]. *)
Lemma reindex_point_data_Ok (uvertices : list Z) (keys : list string) :
  ∀ (cur cur' : gmap string (ndarray float)),
    NoDup keys →
    reindex_point_data uvertices keys cur = Ok cur' →
    ∀ j, if decide (j ∈ keys)
         then ∃ a a', cur !! j = Some a ∧ np_take a uvertices = Ok a'
                      ∧ cur' !! j = Some a'
         else cur' !! j = cur !! j.
Proof.
  induction keys as [|key keys IH]; intros cur cur' Hnd Hloop j; simpl in Hloop.
  - injection Hloop as <-. by rewrite decide_False by apply not_elem_of_nil.
  - apply NoDup_cons in Hnd as [Hkey Hnd]. inv_result.
    match goal with Hg : getitem _ _ = _ |- _ => apply getitem_Ok in Hg end.
    specialize (IH _ _ Hnd Hloop j).
    destruct (decide (j = key)) as [->|Hne].
    + rewrite decide_False in IH by done.
      rewrite (decide_True (P := key ∈ key :: keys)) by left.
      rewrite lookup_insert_eq in IH. eauto.
    + rewrite lookup_insert_ne in IH by done.
      destruct (decide (j ∈ keys)) as [Hin|Hout].
      * by rewrite decide_True by (by right).
      * by rewrite decide_False by (by intros [?|?]%elem_of_cons).
Qed.

Lemma reindex_point_data_returns (uvertices : list Z) (keys : list string) :
  ∀ (cur : gmap string (ndarray float)),
    NoDup keys →
    (∀ key, key ∈ keys → ∃ a a', cur !! key = Some a
                                 ∧ np_take a uvertices = Ok a') →
    ∃ cur', reindex_point_data uvertices keys cur = Ok cur'.
Proof.
  induction keys as [|key keys IH]; intros cur Hnd Hall; simpl; [eauto|].
  apply NoDup_cons in Hnd as [Hkey Hnd].
  destruct (Hall key) as (a & a' & Ha & Ha'); [by left|].
  unfold getitem. rewrite Ha. simpl. rewrite Ha'. simpl.
  apply IH; [done|]. intros key' Hin.
  destruct (Hall key') as (b & b' & Hb & Hb'); [by right|].
  exists b, b'. split; [|done]. rewrite lookup_insert_ne; [done|].
  by intros ->.
Qed.

Lemma np_concatenate_Ok {A} (parts : list (list A)) (l : list A) :
  np_concatenate parts = Ok l ↔ parts ≠ [] ∧ l = concat parts.
Proof.
  unfold np_concatenate. destruct parts; [split; [done | by intros [? _]]|].
  split; [by intros [= <-] | by intros [_ ->]].
Qed.

Lemma elem_of_dict_values {V} (d : gmap string V) (v : V) :
  v ∈ dict_values d ↔ ∃ key, d !! key = Some v.
Proof.
  unfold dict_values. rewrite list_elem_of_omap. split.
  - intros (key & _ & Hv). eauto.
  - intros (key & Hv). exists key. split; [|done].
    apply elem_of_dict_keys. eauto.
Qed.

(** What [ncells] is when the two calls of [numpy.concatenate] return. *)
Lemma concatenated_cells (mesh_cells : gmap string (ndarray Z)) parts ncells :
  rmapM np_concatenate_rows (dict_values mesh_cells) = Ok parts →
  np_concatenate parts = Ok ncells →
  ncells = concat ((λ c, concat (rows c)) <$> dict_values mesh_cells)
  ∧ ∀ i, i ∈ ncells ↔ i ∈ referenced_vertices mesh_cells.
Proof.
  intros Hparts%rmapM_Ok [_ ->]%np_concatenate_Ok.
  assert (parts = (λ c, concat (rows c)) <$> dict_values mesh_cells) as ->.
  { induction Hparts as [|c part ? ? Hc ? IH]; [done|]. simpl. f_equal; [|done].
    unfold np_concatenate_rows in Hc. by apply np_concatenate_Ok in Hc as [_ ->]. }
  split; [done|]. intros i.
  rewrite elem_of_referenced_vertices, elem_of_concat. split.
  - intros (l & (c & -> & (key & Hc)%elem_of_dict_values)%list_elem_of_fmap & Hi).
    eauto.
  - intros (key & c & Hc & Hi). exists (concat (rows c)). split; [|done].
    apply list_elem_of_fmap. exists c. split; [done|].
    apply elem_of_dict_values. eauto.
Qed.

(** The block refines the pruning stage of the specification: for blocks
    that are rectangular and hold no negative index, a run of the block
    that returns, returns the mesh of [prune_orphan_vertices]; every
    referenced vertex is then a row of the points and of every array of
    point data. *)
Lemma prune_vertices_block_refines mesh mesh' :
  prune_vertices_block mesh = Ok mesh' →
  (∀ key c, cells mesh !! key = Some c → wf_ndarray c) →
  (∀ key c i, cells mesh !! key = Some c → i ∈ concat (rows c) → 0 ≤ i) →
  mesh' = prune_orphan_vertices mesh
  ∧ (∀ i, i ∈ referenced_vertices (cells mesh) →
          0 ≤ i < Z.of_nat (shape0 (points mesh)))
  ∧ (∀ key a i, point_data mesh !! key = Some a →
                i ∈ referenced_vertices (cells mesh) →
                i < Z.of_nat (shape0 a)).
Proof.
  intros Hb Hwf Hnonneg. unfold prune_vertices_block, np_unique_inverse in Hb.
  apply rbind_Ok in Hb as (parts & Hparts & Hb).
  apply rbind_Ok in Hb as (ncells & Hncells & Hb).
  apply rbind_Ok in Hb as (new_cells & Hcells & Hb).
  apply rbind_Ok in Hb as (new_points & Hpoints & Hb).
  apply rbind_Ok in Hb as (new_point_data & Hpd & Hb).
  injection Hb as <-.
  destruct (concatenated_cells _ _ _ Hparts Hncells) as [Hflat Href].
  set (u := np_unique ncells) in *.
  assert (Hu : ∀ i, i ∈ u ↔ i ∈ referenced_vertices (cells mesh)).
  { intros i. unfold u. by rewrite elem_of_np_unique. }
  assert (Hu0 : Forall (Z.le 0) u).
  { apply Forall_forall. intros i Hi%Hu%elem_of_referenced_vertices.
    destruct Hi as (key & c & Hc & Hi). by apply (Hnonneg key c i). }
  apply np_take_Ok in Hpoints as [-> Hrange]; [|done].
  rewrite Forall_forall in Hu0, Hrange.
  assert (Hrange' : ∀ i, i ∈ referenced_vertices (cells mesh) →
                         0 ≤ i < Z.of_nat (shape0 (points mesh))).
  { intros i Hi%Hu. split; [by apply Hu0 | by apply Hrange]. }
  assert (Hsurv : u = surviving_vertices (shape0 (points mesh))
                        (referenced_vertices (cells mesh))).
  { apply sorted_lt_ext;
      [apply np_unique_sorted | apply surviving_vertices_sorted |].
    intros i. rewrite elem_of_surviving_vertices, Hu.
    split; [intros Hi; split; [done | by apply Hrange'] | by intros [? _]]. }
  assert (Hpd' : ∀ key a, point_data mesh !! key = Some a →
                   new_point_data !! key = Some (select_rows a u)
                   ∧ Forall (λ i, i < Z.of_nat (shape0 a)) u).
  { intros key a Ha.
    pose proof (reindex_point_data_Ok _ _ _ _ (NoDup_dict_keys _) Hpd key) as Hk.
    rewrite decide_True in Hk by (apply elem_of_dict_keys; eauto).
    destruct Hk as (b & b' & Hb & Hb' & ->). rewrite Ha in Hb.
    injection Hb as <-. apply np_take_Ok in Hb' as [-> ?]; [done|].
    by apply Forall_forall. }
  split_and!; [|done|].
  - unfold prune_orphan_vertices. rewrite <- Hsurv. f_equal.
    + (* the cell blocks *)
      destruct (renumber_cells_spec (λ x, Z.of_nat (index_of x u)) ncells
                  (dict_keys (cells mesh)) (dict_values (cells mesh))
                  (cells mesh) 0)
        as (cur' & Hcur' & Hlook);
        [apply NoDup_dict_keys | apply dict_values_lookup | | by rewrite drop_0 |].
      { apply Forall_forall. intros c (key & Hc)%elem_of_dict_values. eauto. }
      change (renumber_cells (map (λ x, Z.of_nat (index_of x u)) ncells)
                (dict_keys (cells mesh)) (cells mesh) 0 = Ok cur') in Hcur'.
      rewrite Hcells in Hcur'. injection Hcur' as <-.
      apply map_eq. intros j. rewrite Hlook, lookup_fmap.
      destruct (cells mesh !! j) as [c|] eqn:Hc; [|by case_decide].
      rewrite decide_True by (apply elem_of_dict_keys; eauto). simpl. f_equal.
      apply map_ndarray_ext. intros x Hx. unfold new_index. f_equal.
      apply index_of_sorted; [apply np_unique_sorted|].
      apply Hu, elem_of_referenced_vertices. eauto.
    + (* the point data *)
      apply map_eq. intros j. rewrite lookup_fmap.
      destruct (point_data mesh !! j) as [a|] eqn:Ha.
      * by destruct (Hpd' j a Ha) as [-> _].
      * pose proof (reindex_point_data_Ok _ _ _ _ (NoDup_dict_keys _) Hpd j)
          as Hk.
        rewrite decide_False in Hk; [by rewrite Hk, Ha|].
        rewrite elem_of_dict_keys, Ha. by intros [? ?].
  - intros key a i Ha Hi%Hu. destruct (Hpd' key a Ha) as [_ Hlt].
    rewrite Forall_forall in Hlt. by apply Hlt.
Qed.

(** The block returns for a mesh that has a cell block, whose blocks are
    rectangular with at least one row, and whose cell indices are rows of
    the points and of every array of point data. *)
Lemma prune_vertices_block_returns mesh :
  cells mesh ≠ ∅ →
  (∀ key c, cells mesh !! key = Some c → wf_ndarray c ∧ rows c ≠ []) →
  (∀ key c i, cells mesh !! key = Some c → i ∈ concat (rows c) →
              0 ≤ i < Z.of_nat (shape0 (points mesh))) →
  (∀ key a, point_data mesh !! key = Some a →
            (shape0 (points mesh) ≤ shape0 a)%nat) →
  ∃ mesh', prune_vertices_block mesh = Ok mesh'.
Proof.
  intros Hne Hwf Hrange Hpd. unfold prune_vertices_block.
  assert (rmapM np_concatenate_rows (dict_values (cells mesh))
          = Ok ((λ c, concat (rows c)) <$> dict_values (cells mesh))) as Hparts.
  { apply rmapM_Ok.
    assert (Hall : ∀ c, c ∈ dict_values (cells mesh) → rows c ≠ []).
    { intros c (key & Hc)%elem_of_dict_values. by apply (Hwf key c). }
    induction (dict_values (cells mesh)) as [|c cs IH]; [constructor|].
    constructor.
    - unfold np_concatenate_rows. apply np_concatenate_Ok.
      split; [apply Hall; by left | done].
    - apply IH. intros c' ?. apply Hall. by right. }
  assert (np_concatenate ((λ c, concat (rows c)) <$> dict_values (cells mesh))
          = Ok (concat ((λ c, concat (rows c)) <$> dict_values (cells mesh))))
    as Hncells.
  { apply np_concatenate_Ok. split; [|done].
    apply map_choose in Hne as (key & c & Hc).
    assert (c ∈ dict_values (cells mesh)) as Hin
      by (apply elem_of_dict_values; eauto).
    intros Hnil%fmap_nil_inv. rewrite Hnil in Hin. by apply elem_of_nil in Hin. }
  destruct (concatenated_cells _ _ _ Hparts Hncells) as [_ Href].
  rewrite Hparts. simpl. rewrite Hncells. simpl.
  set (ncells := concat ((λ c, concat (rows c)) <$> dict_values (cells mesh)))
    in *.
  unfold np_unique_inverse. set (u := np_unique ncells).
  assert (Hu : ∀ i, i ∈ u → 0 ≤ i < Z.of_nat (shape0 (points mesh))).
  { intros i Hi%elem_of_np_unique%Href%elem_of_referenced_vertices.
    destruct Hi as (key & c & Hc & Hi). by apply (Hrange key c). }
  destruct (renumber_cells_spec (λ x, Z.of_nat (index_of x u)) ncells
              (dict_keys (cells mesh)) (dict_values (cells mesh))
              (cells mesh) 0)
    as (cur' & Hcur' & _);
    [apply NoDup_dict_keys | apply dict_values_lookup | | by rewrite drop_0 |].
  { apply Forall_forall. intros c (key & Hc)%elem_of_dict_values.
    by apply (Hwf key c). }
  change (renumber_cells (map (λ x, Z.of_nat (index_of x u)) ncells)
            (dict_keys (cells mesh)) (cells mesh) 0 = Ok cur') in Hcur'.
  rewrite Hcur'. simpl.
  assert (Htake : ∀ a : ndarray float, (shape0 (points mesh) ≤ shape0 a)%nat →
                       np_take a u = Ok (select_rows a u)).
  { intros a Ha. apply np_take_Ok.
    - apply Forall_forall. intros i Hi%Hu. lia.
    - split; [done|]. apply Forall_forall. intros i Hi%Hu. lia. }
  rewrite Htake by done. simpl.
  destruct (reindex_point_data_returns u (dict_keys (point_data mesh))
              (point_data mesh)) as [pd' ->]; [apply NoDup_dict_keys| |].
  - intros key [a Ha]%elem_of_dict_keys. exists a, (select_rows a u).
    split; [done|]. apply Htake. by eapply Hpd.
  - simpl. eauto.
Qed.

(** The rows of a selection, when every selected position is a row. *)
Lemma select_rows_lookup {A} (a : ndarray A) (survivors : list Z) :
  (∀ i, i ∈ survivors → 0 ≤ i < Z.of_nat (shape0 a)) →
  shape0 (select_rows a survivors) = length survivors
  ∧ ∀ j i, survivors !! j = Some i →
           rows (select_rows a survivors) !! j = rows a !! Z.to_nat i
           ∧ is_Some (rows a !! Z.to_nat i).
Proof.
  intros Hrange.
  assert (Hall : ∀ i, i ∈ survivors → is_Some (rows a !! Z.to_nat i)).
  { intros i Hi%Hrange. apply lookup_lt_is_Some_2. unfold shape0 in Hi. lia. }
  unfold select_rows, shape0. simpl. split; [by apply omap_total_length|].
  intros j i Hj. rewrite omap_total_lookup, Hj by done. simpl.
  split; [done|]. apply Hall. by eapply list_elem_of_lookup_2.
Qed.

(** C1: after the block, for cell blocks that are rectangular and hold no
    negative index: every index in a cell block is a row of the points;
    every point is referenced by a cell; the points that remain are the
    referenced ones, in their original order ([survivors] is strictly
    increasing, and the new point [j] is the old point [survivors !! j]);
    every cell index is replaced by the position of its vertex among the
    survivors; and every array of point data is reduced to the same rows. *)
Theorem prune_vertices_block_invariants mesh mesh' :
  prune_vertices_block mesh = Ok mesh' →
  (∀ key c, cells mesh !! key = Some c → wf_ndarray c) →
  (∀ key c i, cells mesh !! key = Some c → i ∈ concat (rows c) → 0 ≤ i) →
  let survivors :=
    surviving_vertices (shape0 (points mesh)) (referenced_vertices (cells mesh)) in
  (∀ key c' i, cells mesh' !! key = Some c' → i ∈ concat (rows c') →
               0 ≤ i < Z.of_nat (shape0 (points mesh')))
  ∧ (∀ j, (j < shape0 (points mesh'))%nat →
          ∃ key c', cells mesh' !! key = Some c'
                    ∧ Z.of_nat j ∈ concat (rows c'))
  ∧ StronglySorted Z.lt survivors
  ∧ (∀ i, i ∈ survivors ↔
          ∃ key c, cells mesh !! key = Some c ∧ i ∈ concat (rows c))
  ∧ shape0 (points mesh') = length survivors
  ∧ shape1 (points mesh') = shape1 (points mesh)
  ∧ (∀ j i, survivors !! j = Some i →
            rows (points mesh') !! j = rows (points mesh) !! Z.to_nat i
            ∧ is_Some (rows (points mesh) !! Z.to_nat i))
  ∧ (∀ key, cells mesh' !! key
            = map_ndarray (new_index survivors) <$> cells mesh !! key)
  ∧ (∀ i, i ∈ survivors →
          survivors !! Z.to_nat (new_index survivors i) = Some i)
  ∧ (∀ key a, point_data mesh !! key = Some a →
       ∃ a', point_data mesh' !! key = Some a'
             ∧ shape0 a' = length survivors
             ∧ shape1 a' = shape1 a
             ∧ ∀ j i, survivors !! j = Some i →
                      rows a' !! j = rows a !! Z.to_nat i
                      ∧ is_Some (rows a !! Z.to_nat i))
  ∧ dom (point_data mesh') = dom (point_data mesh).
Proof.
  intros Hb Hwf Hnonneg survivors.
  destruct (prune_vertices_block_refines _ _ Hb Hwf Hnonneg)
    as (-> & Hrange & Hpd).
  pose proof (surviving_vertices_sorted (shape0 (points mesh))
                (referenced_vertices (cells mesh))) as Hsorted.
  fold survivors in Hsorted.
  assert (Hsurv : ∀ i, i ∈ survivors ↔ i ∈ referenced_vertices (cells mesh)).
  { intros i. unfold survivors. rewrite elem_of_surviving_vertices.
    split; [by intros [? _] | by auto]. }
  assert (Hpos : ∀ i, i ∈ survivors →
            survivors !! Z.to_nat (new_index survivors i) = Some i).
  { intros i (j & Hj)%list_elem_of_lookup_1. unfold new_index.
    by rewrite Nat2Z.id, (sorted_lookup_count _ _ _ Hsorted Hj). }
  destruct (select_rows_lookup (points mesh) survivors) as [Hlen Hrows].
  { intros i Hi%Hsurv. by apply Hrange. }
  assert (Hcells : ∀ key, cells (prune_orphan_vertices mesh) !! key
            = map_ndarray (new_index survivors) <$> cells mesh !! key).
  { intros key. unfold prune_orphan_vertices. simpl. by rewrite lookup_fmap. }
  unfold prune_orphan_vertices at 1 2 3 4 5 6. simpl. fold survivors.
  split_and!; try done.
  - (* range *)
    intros key c' i Hc' Hi. rewrite Hcells in Hc'.
    destruct (cells mesh !! key) as [c|] eqn:Hc; [|done].
    injection Hc' as <-. unfold map_ndarray in Hi. simpl in Hi.
    apply elem_of_concat in Hi as (r' & Hr' & Hi).
    apply list_elem_of_fmap in Hr' as (r & -> & Hr).
    apply list_elem_of_fmap in Hi as (x & -> & Hx).
    assert (x ∈ survivors) as Hxs.
    { apply Hsurv, elem_of_referenced_vertices. exists key, c.
      split; [done|]. apply elem_of_concat. eauto. }
    unfold new_index. split; [lia|].
    fold (shape0 (select_rows (points mesh) survivors)). rewrite Hlen.
    apply inj_lt. apply (length_filter_lt _ _ x); [done | lia].
  - (* every point is referenced *)
    intros j Hj. fold (shape0 (select_rows (points mesh) survivors)) in Hj.
    rewrite Hlen in Hj.
    destruct (lookup_lt_is_Some_2 survivors j Hj) as [x Hx].
    assert (x ∈ survivors) as Hxs by by eapply list_elem_of_lookup_2.
    apply Hsurv, elem_of_referenced_vertices in Hxs as (key & c & Hc & Hxc).
    exists key, (map_ndarray (new_index survivors) c).
    rewrite Hcells, Hc. split; [done|].
    replace (Z.of_nat j) with (new_index survivors x)
      by (unfold new_index; by rewrite (sorted_lookup_count _ _ _ Hsorted Hx)).
    unfold map_ndarray. simpl.
    apply elem_of_concat in Hxc as (r & Hr & Hxr).
    apply elem_of_concat. exists (map (new_index survivors) r).
    split; [by apply (list_elem_of_fmap_2 (map (new_index survivors))) |].
    by apply (list_elem_of_fmap_2 (new_index survivors)).
  - intros i. by rewrite Hsurv, elem_of_referenced_vertices.
  - intros key a Ha. exists (select_rows a survivors).
    rewrite lookup_fmap, Ha. split; [done|].
    destruct (select_rows_lookup a survivors) as [Hlena Hrowsa].
    { intros i Hi%Hsurv. split; [by apply Hrange | by eapply Hpd]. }
    done.
  - by rewrite dom_fmap_L.
Qed.
End PruneVertices.

(** ** The block [if prune_z_0 and ...:] *)

Section PruneZ0.
Context {CellData FieldData : Type}.
Implicit Types mesh : Mesh CellData FieldData.

(** The test of the block holds exactly when the points have three columns
    and every third coordinate is below the tolerance in absolute value. *)
Lemma z_is_zero_true (mesh_points : ndarray float) :
  z_is_zero mesh_points = true ↔
  shape1 mesh_points = 3%nat
  ∧ ∀ r z, r ∈ rows mesh_points → r !! 2%nat = Some z →
           abs_below_tolerance z = true.
Proof.
  unfold z_is_zero, np_all, np_column.
  rewrite andb_true_iff, Nat.eqb_eq, forallb_forall.
  apply and_iff_compat_l. split.
  - intros Hall r z Hr Hz. apply (Hall (abs_below_tolerance z)).
    apply in_map, list_elem_of_In, list_elem_of_omap. eauto.
  - intros Hall b (z & <- & Hz%list_elem_of_In%list_elem_of_omap)%in_map_iff.
    destruct Hz as (r & Hr & Hz). by apply (Hall r z).
Qed.

(** C6: for points with three columns, the block drops the third column of
    every point if and only if every third coordinate is below the
    tolerance [1.0e-13] in absolute value; otherwise the mesh is left as it
    is.  Third coordinates that are all [0.0] are dropped, and one third
    coordinate of [1.0e-6] keeps all three columns. *)
Theorem prune_z_0_block_collapse mesh :
  shape1 (points mesh) = 3%nat →
  let flat := ∀ r z, r ∈ rows (points mesh) → r !! 2%nat = Some z →
                     abs_below_tolerance z = true in
  (flat →
   prune_z_0_block mesh
   = MkMesh (NdArray 2 (map (take 2) (rows (points mesh)))) (cells mesh)
       (point_data mesh) (cell_data mesh) (field_data mesh))
  ∧ (¬ flat → prune_z_0_block mesh = mesh)
  ∧ (shape1 (points (prune_z_0_block mesh)) = 2%nat ↔ flat)
  ∧ (Forall (λ r, r !! 2%nat = Some 0%float) (rows (points mesh)) →
     shape1 (points (prune_z_0_block mesh)) = 2%nat)
  ∧ (Exists (λ r, r !! 2%nat = Some one_millionth) (rows (points mesh)) →
     prune_z_0_block mesh = mesh).
Proof.
  intros Hshape flat.
  assert (Hflat : z_is_zero (points mesh) = true ↔ flat).
  { rewrite z_is_zero_true. unfold flat. tauto. }
  assert (Hyes : flat →
    prune_z_0_block mesh
    = MkMesh (NdArray 2 (map (take 2) (rows (points mesh)))) (cells mesh)
        (point_data mesh) (cell_data mesh) (field_data mesh)).
  { intros Hf%Hflat. unfold prune_z_0_block, np_columns_upto.
    by rewrite Hf, Hshape. }
  assert (Hno : ¬ flat → prune_z_0_block mesh = mesh).
  { intros Hf. unfold prune_z_0_block.
    destruct (z_is_zero (points mesh)); [|done]. destruct Hf. by apply Hflat. }
  split_and!; [done..| | |].
  - split.
    + intros H2. destruct (z_is_zero (points mesh)) eqn:Hz; [by apply Hflat|].
      unfold prune_z_0_block in H2. rewrite Hz in H2. congruence.
    + intros Hf. by rewrite (Hyes Hf).
  - intros Hall. rewrite Hyes; [done|]. intros r z Hr Hz.
    rewrite Forall_forall in Hall. rewrite (Hall r Hr) in Hz.
    by injection Hz as <-.
  - intros (r & Hr & Hz)%Exists_exists. apply Hno. intros Hf.
    by specialize (Hf r _ Hr Hz).
Qed.

(** The block is the collapse stage of the specification. *)
Lemma prune_z_0_block_refines mesh :
  prune_z_0_block mesh = collapse_flat_axis mesh.
Proof.
  unfold prune_z_0_block, collapse_flat_axis, z_is_zero, np_all, np_column.
  assert (forallb id (map abs_below_tolerance
                        (omap (λ r, r !! 2%nat) (rows (points mesh))))
          = forallb third_coordinate_near_zero (rows (points mesh))) as ->.
  { induction (rows (points mesh)) as [|r rws IH]; [done|]. simpl.
    unfold third_coordinate_near_zero at 1.
    destruct (r !! 2%nat) as [z|]; simpl; [f_equal|]; exact IH. }
  destruct (Nat.eqb_spec (shape1 (points mesh)) 3) as [Hs|]; [|done].
  simpl. destruct (forallb _ _); [|done].
  unfold np_columns_upto. by rewrite Hs.
Qed.
End PruneZ0.

(** ** [Spline] *)

Section SplineFacts.
Variable line_id : nat → string.

Lemma assert_points_Ok (points : list pyobject) :
  Spline.assert_points points = Ok ()
  ↔ ∀ c, c ∈ points → isinstance_Point c = true.
Proof.
  induction points as [|c points IH]; simpl.
  - split; [by intros _ c ?%not_elem_of_nil | done].
  - destruct (isinstance_Point c) eqn:Hc.
    + rewrite IH. split.
      * by intros Hall c' [->|?]%elem_of_cons; auto.
      * intros Hall c' ?. apply Hall. by right.
    + split; [done|]. intros Hall. rewrite Hall in Hc; [done | by left].
Qed.




(** The text after the first element of a joined list. *)
Lemma join_cons (sep x : string) (l : list string) :
  join sep (x :: l) = x +:+ match l with
                            | [] => ""
                            | _ => sep +:+ join sep l
                            end.
Proof.
  destruct l as [|y l]; simpl; [|done].
  induction x as [|c x IH]; [reflexivity|].
  change (String c x = String c (x +:+ "")). by f_equal.
Qed.

(** Two texts without comma, each followed by nothing or by a comma, are
    equal when the whole texts are. *)
Lemma append_comma_inj (x y s1 s2 : string) :
  has_comma x = false → has_comma y = false →
  (s1 = "" ∨ ∃ t, s1 = String ","%char t) →
  (s2 = "" ∨ ∃ t, s2 = String ","%char t) →
  x +:+ s1 = y +:+ s2 → x = y ∧ s1 = s2.
Proof.
  revert y. induction x as [|a x IH]; intros [|b y] Hx Hy Hs1 Hs2 Heq;
    simpl in *.
  - done.
  - apply orb_false_iff in Hy as [Hb _]. apply Ascii.eqb_neq in Hb.
    destruct Hs1 as [->|[t ->]]; [done|]. by injection Heq as <- _.
  - apply orb_false_iff in Hx as [Ha _]. apply Ascii.eqb_neq in Ha.
    destruct Hs2 as [->|[t ->]]; [done|]. by injection Heq as -> _.
  - apply orb_false_iff in Hx as [_ Hx]. apply orb_false_iff in Hy as [_ Hy].
    injection Heq as -> Heq. destruct (IH y Hx Hy Hs1 Hs2 Heq) as [-> ->].
    done.
Qed.

(** The joined text of identifiers without comma determines the identifiers
    and their order. *)
Lemma join_comma_inj (l1 l2 : list string) :
  l1 ≠ [] → l2 ≠ [] →
  Forall (λ x, has_comma x = false) l1 →
  Forall (λ x, has_comma x = false) l2 →
  join ", " l1 = join ", " l2 → l1 = l2.
Proof.
  revert l2. induction l1 as [|x l1 IH]; intros [|y l2] Hne1 Hne2 Hl1 Hl2;
    try done.
  rewrite !join_cons. intros Heq.
  apply Forall_cons in Hl1 as [Hx Hl1]. apply Forall_cons in Hl2 as [Hy Hl2].
  apply append_comma_inj in Heq as [-> Heq]; [|done|done|..].
  - f_equal. destruct l1 as [|x1 l1], l2 as [|y2 l2]; try done.
    simpl in Heq. injection Heq as Heq. by apply IH.
  - destruct l1; [by left | right; by eexists].
  - destruct l2; [by left | right; by eexists].
Qed.

(** C4: for four [Point]s or more the code of the curve is two lines joined
    by a newline: the first binds the identifier of the curve to [newl], the
    second defines the curve as the [BSpline] over the identifiers of the
    points, as many as were given and in the order they were given in; for
    identifiers without comma, no other sequence of points has this list. *)
Theorem Spline_init_code (ps : list Point.t) (counter : nat) :
  (3 < length ps)%nat →
  ∃ spline,
    Spline.__init__ line_id (map PointInstance ps) counter
    = (Ok spline, S counter)
    ∧ Spline.code spline
      = (line_id counter +:+ " = newl;") +:+ newline
        +:+ ("BSpline(" +:+ line_id counter +:+ ") = {"
             +:+ join ", " (map Point.id ps) +:+ "};")
    ∧ length (map Point.id ps) = length ps
    ∧ (∀ j p, ps !! j = Some p → map Point.id ps !! j = Some (Point.id p))
    ∧ (∀ qs : list Point.t,
         qs ≠ [] →
         Forall (λ x, has_comma x = false) (map Point.id ps) →
         Forall (λ x, has_comma x = false) (map Point.id qs) →
         join ", " (map Point.id qs) = join ", " (map Point.id ps) →
         map Point.id qs = map Point.id ps).
Proof.
  intros Hlen. unfold Spline.__init__. simpl.
  assert (Hall : ∀ c, c ∈ map PointInstance ps → isinstance_Point c = true).
  { by intros c (p & -> & _)%list_elem_of_fmap. }
  rewrite (proj2 (assert_points_Ok _) Hall). simpl.
  rewrite length_map, (proj2 (Nat.ltb_lt 3 (length ps)) Hlen). simpl.
  assert (rmapM getattr_id (map PointInstance ps) = Ok (map Point.id ps)) as ->.
  { clear. induction ps as [|p ps IH]; [done|]. simpl. by rewrite IH. }
  simpl. eexists. split_and!; [done..| | |].
  - apply length_map.
  - intros j p Hj. change (map Point.id ps) with (Point.id <$> ps).
    by rewrite list_lookup_fmap, Hj.
  - intros qs Hqs Hps_free Hqs_free Heq. apply join_comma_inj; try done.
    + by destruct qs.
    + destruct ps; [simpl in Hlen; lia | done].
Qed.
End SplineFacts.

Ltac io_simpl :=
  unfold mbind, io_bind, mret, io_ret, named_temporary_file, run_process,
    write_file, meshio_read, _get_gmsh_exe, os_path_isfile, assert, lift;
  simpl.

Section GenerateMeshFacts.
Context {CellData FieldData : Type}.
Context `{PyIteration}.
Variable tempfile_name : string → filesystem → string.
Variable gmsh_process : list string → filesystem → Z * filesystem.
Variable decode_file : string → filesystem → result (Mesh CellData FieldData).


Lemma generate_mesh_phases geo_code verbose dim prune_vertices prune_z_0
    remove_faces gmsh_path extra_gmsh_arguments geo_filename mesh_file_type w :
  generate_mesh tempfile_name gmsh_process decode_file geo_code verbose dim prune_vertices prune_z_0 remove_faces
    gmsh_path extra_gmsh_arguments geo_filename mesh_file_type w
  = ('(geo, msh, returncode) ←
       invoke_engine tempfile_name gmsh_process geo_code dim gmsh_path extra_gmsh_arguments geo_filename
         mesh_file_type;
     _ ← assert (returncode =? 0)
           ("Gmsh exited with error (return code " +:+ pretty returncode
            +:+ ").");
     decode_and_clean decode_file prune_vertices prune_z_0 remove_faces
       (bool_decide (is_Some geo_filename)) geo msh) w.
Proof.
  unfold generate_mesh, invoke_engine, decode_and_clean.
  destruct geo_filename as [name|], gmsh_path as [path|]; io_simpl;
    repeat (match goal with
            | |- context [gmsh_process ?a ?f] => destruct (gmsh_process a f)
            end; io_simpl); reflexivity.
Qed.

(** The engine phase never raises, and starts exactly one process. *)
Lemma invoke_engine_runs geo_code dim gmsh_path extra_gmsh_arguments
    geo_filename mesh_file_type w :
  ∃ geo msh exe returncode fs,
    invoke_engine tempfile_name gmsh_process geo_code dim gmsh_path extra_gmsh_arguments geo_filename
      mesh_file_type w
    = (Ok (geo, msh, returncode),
       World fs
         (spawned w ++
          [exe :: gmsh_args dim geo mesh_file_type msh
                    (default [] extra_gmsh_arguments ++
                     if decide (mesh_file_type = "mesh")
                     then ["-string"; "Mesh.SaveElementTagType=2;"]
                     else [])]))
    ∧ geo = default (tempfile_name ".geo" (files w)) geo_filename.
Proof.
  unfold invoke_engine.
  assert ((if String.eqb mesh_file_type "mesh"
           then default [] extra_gmsh_arguments
                ++ ["-string"; "Mesh.SaveElementTagType=2;"]
           else default [] extra_gmsh_arguments)
          = default [] extra_gmsh_arguments ++
            if decide (mesh_file_type = "mesh")
            then ["-string"; "Mesh.SaveElementTagType=2;"] else []) as ->.
  { destruct (String.eqb_spec mesh_file_type "mesh"); case_decide;
      try done. by rewrite app_nil_r. }
  destruct geo_filename as [name|], gmsh_path as [path|]; io_simpl;
    match goal with
    | |- context [gmsh_process ?a ?f] =>
        destruct (gmsh_process a f) as [rc fs] eqn:Hrun
    end; simpl; eauto 10.
Qed.

Lemma decode_and_clean_Ok prune_vertices prune_z_0 remove_faces preserve_geo
    geo msh w out w' :
  decode_and_clean decode_file prune_vertices prune_z_0 remove_faces preserve_geo geo msh w
  = (Ok out, w') →
  ∃ raw m1 m2,
    decode_file msh (files w) = Ok raw
    ∧ (if remove_faces then remove_faces_block raw else Ok raw) = Ok m1
    ∧ (if prune_vertices then prune_vertices_block m1 else Ok m1) = Ok m2
    ∧ out = (let mesh := if prune_z_0 then prune_z_0_block m2 else m2 in
             (points mesh, cells mesh, point_data mesh, cell_data mesh,
              field_data mesh))
    ∧ is_Some (files w !! msh)
    ∧ files w' = (if preserve_geo then delete msh (files w)
                  else delete geo (delete msh (files w)))
    ∧ spawned w' = spawned w.
Proof.
  unfold decode_and_clean. io_simpl.
  destruct (decode_file msh (files w)) as [raw|]; [|done].
  destruct (if remove_faces then _ else _) as [m1|] eqn:Hm1; [|done].
  destruct (if prune_vertices then _ else _) as [m2|] eqn:Hm2; [|done].
  unfold os_remove; simpl.
  destruct (files w !! msh) eqn:Hmsh; [|done]. simpl.
  destruct preserve_geo; simpl.
  - intros [= <- <-]. exists raw, m1, m2. split_and!; eauto.
  - destruct (delete msh (files w) !! geo) eqn:Hgeo; [|done].
    intros [= <- <-]. exists raw, m1, m2. split_and!; eauto.
Qed.

Lemma generate_mesh_Ok geo_code verbose dim prune_vertices prune_z_0
    remove_faces gmsh_path extra_gmsh_arguments geo_filename mesh_file_type
    w out w' :
  generate_mesh tempfile_name gmsh_process decode_file geo_code verbose dim prune_vertices prune_z_0 remove_faces
    gmsh_path extra_gmsh_arguments geo_filename mesh_file_type w
  = (Ok out, w') →
  ∃ geo msh w1,
    invoke_engine tempfile_name gmsh_process geo_code dim gmsh_path extra_gmsh_arguments geo_filename
      mesh_file_type w = (Ok (geo, msh, 0), w1)
    ∧ decode_and_clean decode_file prune_vertices prune_z_0 remove_faces
        (bool_decide (is_Some geo_filename)) geo msh w1 = (Ok out, w').
Proof.
  rewrite generate_mesh_phases.
  destruct (invoke_engine_runs geo_code dim gmsh_path extra_gmsh_arguments
              geo_filename mesh_file_type w)
    as (geo & msh & exe & rc & fs & Hrun & _).
  unfold mbind at 1, io_bind at 1. rewrite Hrun.
  unfold mbind at 1, io_bind at 1, assert, lift.
  destruct (Z.eqb_spec rc 0) as [->|]; [|done].
  intros Hrest. eauto.
Qed.

(** [generate_mesh] returns when the engine exits with status zero, the
    decoder and the enabled blocks return, and the files to remove exist. *)
Lemma generate_mesh_returns geo_code verbose dim
    (prune_vertices prune_z_0 remove_faces : bool) gmsh_path
    extra_gmsh_arguments geo_filename mesh_file_type w geo msh w1 raw m1 m2 :
  invoke_engine tempfile_name gmsh_process geo_code dim gmsh_path
    extra_gmsh_arguments geo_filename mesh_file_type w
  = (Ok (geo, msh, 0), w1) →
  decode_file msh (files w1) = Ok raw →
  (if remove_faces then remove_faces_block raw else Ok raw) = Ok m1 →
  (if prune_vertices then prune_vertices_block m1 else Ok m1) = Ok m2 →
  is_Some (files w1 !! msh) →
  (geo_filename = None → geo ≠ msh ∧ is_Some (files w1 !! geo)) →
  ∃ w',
    generate_mesh tempfile_name gmsh_process decode_file geo_code verbose dim
      prune_vertices prune_z_0 remove_faces gmsh_path extra_gmsh_arguments
      geo_filename mesh_file_type w
    = (Ok (let mesh := if prune_z_0 then prune_z_0_block m2 else m2 in
           (points mesh, cells mesh, point_data mesh, cell_data mesh,
            field_data mesh)),
       w').
Proof.
  intros Hrun Hraw Hm1 Hm2 Hmsh Hgeo. destruct Hmsh as [text Hmsh].
  rewrite generate_mesh_phases.
  unfold mbind at 1, io_bind at 1. rewrite Hrun.
  unfold mbind at 1, io_bind at 1, assert, lift. simpl.
  unfold decode_and_clean. io_simpl. rewrite Hraw, Hm1, Hm2.
  unfold os_remove. simpl. rewrite Hmsh. simpl.
  destruct geo_filename as [name|]; simpl; [eauto|].
  destruct Hgeo as [Hne Hgeo]; [done|]. destruct Hgeo as [text' Hgeo].
  rewrite lookup_delete_ne, Hgeo by done. eauto.
Qed.



(** C5, as the code has it: when the engine exits with a status other
    than zero, [generate_mesh] raises the assertion error that carries the
    return code, and the world is the one the engine left behind: neither
    the script nor the mesh file is removed.  The two files are gone (the
    script unless the caller named it) when [generate_mesh] returns. *)
Theorem engine_failure_leaves_files geo_code verbose dim prune_vertices
    prune_z_0 remove_faces gmsh_path extra_gmsh_arguments geo_filename
    mesh_file_type w geo msh returncode w1 :
  invoke_engine tempfile_name gmsh_process geo_code dim gmsh_path
    extra_gmsh_arguments geo_filename mesh_file_type w
  = (Ok (geo, msh, returncode), w1) →
  (returncode ≠ 0 →
   generate_mesh tempfile_name gmsh_process decode_file geo_code verbose dim
     prune_vertices prune_z_0 remove_faces gmsh_path extra_gmsh_arguments
     geo_filename mesh_file_type w
   = (Raise (AssertionError ("Gmsh exited with error (return code "
                             +:+ pretty returncode +:+ ").")),
      w1))
  ∧ (∀ out w',
       generate_mesh tempfile_name gmsh_process decode_file geo_code verbose
         dim prune_vertices prune_z_0 remove_faces gmsh_path
         extra_gmsh_arguments geo_filename mesh_file_type w
       = (Ok out, w') →
       returncode = 0
       ∧ files w' !! msh = None
       ∧ (geo_filename = None → files w' !! geo = None)).
Proof.
  intros Hrun. split.
  - intros Hrc. rewrite generate_mesh_phases.
    unfold mbind at 1, io_bind at 1. rewrite Hrun.
    unfold mbind at 1, io_bind at 1, assert, lift.
    by destruct (Z.eqb_spec returncode 0).
  - intros out w' (geo' & msh' & w1' & Hrun' & Hrest)%generate_mesh_Ok.
    rewrite Hrun in Hrun'. injection Hrun' as <- <- -> <-.
    apply decode_and_clean_Ok in Hrest
      as (raw & m1 & m2 & _ & _ & _ & _ & _ & Hfiles & _).
    rewrite Hfiles. split_and!; [done| |].
    + destruct (bool_decide _); rewrite ?lookup_delete; repeat case_decide;
        try done; by rewrite lookup_delete_eq.
    + intros ->. simpl. by rewrite lookup_delete_eq.
Qed.

(** C9: the field data that [generate_mesh] returns is the field data of
    the mesh that [meshio.read] decoded, whichever cleanup stages are
    enabled. *)
Theorem field_data_unchanged geo_code verbose dim prune_vertices prune_z_0
    remove_faces gmsh_path extra_gmsh_arguments geo_filename mesh_file_type
    w new_points new_cells new_point_data new_cell_data new_field_data w' :
  generate_mesh tempfile_name gmsh_process decode_file geo_code verbose dim prune_vertices prune_z_0 remove_faces
    gmsh_path extra_gmsh_arguments geo_filename mesh_file_type w
  = (Ok (new_points, new_cells, new_point_data, new_cell_data,
         new_field_data), w') →
  ∃ geo msh w1 mesh,
    invoke_engine tempfile_name gmsh_process geo_code dim gmsh_path extra_gmsh_arguments geo_filename
      mesh_file_type w = (Ok (geo, msh, 0), w1)
    ∧ decode_file msh (files w1) = Ok mesh
    ∧ new_field_data = field_data mesh.
Proof.
  intros (geo & msh & w1 & Hrun & Hrest)%generate_mesh_Ok.
  apply decode_and_clean_Ok in Hrest
    as (raw & m1 & m2 & Hraw & Hm1 & Hm2 & Hout & _).
  exists geo, msh, w1, raw. split_and!; [done..|].
  injection Hout as _ _ _ _ ->.
  assert (field_data m1 = field_data raw) as <-.
  { destruct remove_faces; [|by injection Hm1 as ->].
    by apply remove_faces_block_frame in Hm1 as (_ & _ & ?). }
  assert (field_data m2 = field_data m1) as <-.
  { destruct prune_vertices; [|by injection Hm2 as ->].
    by apply prune_vertices_block_frame in Hm2 as (_ & ?). }
  destruct prune_z_0; [|done].
  by destruct (prune_z_0_block_frame m2) as (_ & _ & _ & ?).
Qed.

(** C7: with the three stages enabled, what [generate_mesh] returns is what
    the block of [prune_z_0] makes of what the block of [prune_vertices]
    makes of what the block of [remove_faces] makes of the decoded mesh; for
    cell blocks that are rectangular and hold no negative index this is the
    collapse of the pruning of the filtering of the decoded mesh, pruning
    being computed on the cells that the filtering retained. *)
Theorem generate_mesh_stage_order geo_code verbose dim gmsh_path
    extra_gmsh_arguments geo_filename mesh_file_type w new_points new_cells
    new_point_data new_cell_data new_field_data w' :
  generate_mesh tempfile_name gmsh_process decode_file geo_code verbose dim
    true true true gmsh_path extra_gmsh_arguments geo_filename mesh_file_type w
  = (Ok (new_points, new_cells, new_point_data, new_cell_data, new_field_data),
     w') →
  ∃ geo msh w1 raw,
    invoke_engine tempfile_name gmsh_process geo_code dim gmsh_path
      extra_gmsh_arguments geo_filename mesh_file_type w
    = (Ok (geo, msh, 0), w1)
    ∧ decode_file msh (files w1) = Ok raw
    ∧ (∃ filtered pruned,
         remove_faces_block raw = Ok filtered
         ∧ prune_vertices_block filtered = Ok pruned
         ∧ MkMesh new_points new_cells new_point_data new_cell_data
             new_field_data
           = prune_z_0_block pruned)
    ∧ ((∀ key c, cells raw !! key = Some c → wf_ndarray c) →
       (∀ key c i, cells raw !! key = Some c → i ∈ concat (rows c) → 0 ≤ i) →
       MkMesh new_points new_cells new_point_data new_cell_data new_field_data
       = collapse_flat_axis
           (prune_orphan_vertices (filter_cells_by_dimension raw))).
Proof.
  intros (geo & msh & w1 & Hrun & Hrest)%generate_mesh_Ok.
  apply decode_and_clean_Ok in Hrest
    as (raw & m1 & m2 & Hraw & Hm1 & Hm2 & Hout & _).
  exists geo, msh, w1, raw. split_and!; [done..| |].
  - exists m1, m2. split_and!; [done..|].
    simpl in Hout. injection Hout as -> -> -> -> ->.
    by destruct (prune_z_0_block m2).
  - intros Hwf Hnonneg.
    pose proof (remove_faces_block_refines _ _ Hm1) as ->.
    assert (Hsub : ∀ key c,
              cells (filter_cells_by_dimension raw) !! key = Some c →
              cells raw !! key = Some c).
    { intros key c. unfold filter_cells_by_dimension. simpl.
      rewrite lookup_restrict. by case_decide. }
    destruct (prune_vertices_block_refines _ _ Hm2) as (-> & _).
    { intros key c Hc%Hsub. by eapply Hwf. }
    { intros key c i Hc%Hsub. by eapply Hnonneg. }
    rewrite <- prune_z_0_block_refines.
    simpl in Hout. injection Hout as -> -> -> -> ->.
    by destruct (prune_z_0_block _).
Qed.
End GenerateMeshFacts.

(** ** Examples of runs *)

Lemma engine_argument_list_example :
  spawned
    (generate_mesh Sample.tempfile_name Sample.gmsh_failing
       (Sample.decode_as Sample.empty_mesh) "Point(1) = {0, 0, 0, 1};" true 2
       true false false None (Some ["-algo"; "del2d"]) None "mesh"
       Sample.empty_world).2
  = [["gmsh"; "-2"; "/tmp/tmpq1.geo"; "-format"; "mesh"; "-bin"; "-o";
      "/tmp/tmpq1.mesh"; "-algo"; "del2d"; "-string";
      "Mesh.SaveElementTagType=2;"]].
Proof. vm_compute. reflexivity. Qed.

Lemma engine_failure_leaves_files_run :
  generate_mesh Sample.tempfile_name Sample.gmsh_failing
    (Sample.decode_as Sample.empty_mesh) "Point(1) = {0, 0, 0, 1};" true 3
    true false false None None None "msh" Sample.empty_world
  = (Raise (AssertionError "Gmsh exited with error (return code 1)."),
     World {[ "/tmp/tmpq1.geo" := "Point(1) = {0, 0, 0, 1};" ]}
       [["gmsh"; "-3"; "/tmp/tmpq1.geo"; "-format"; "msh"; "-bin"; "-o";
         "/tmp/tmpq1.msh"]]).
Proof. vm_compute. reflexivity. Qed.

Lemma engine_failure_leaves_files_witness :
  generate_mesh Sample.tempfile_name Sample.gmsh_failing
    (Sample.decode_as Sample.empty_mesh) "Point(1) = {0, 0, 0, 1};" true 3
    true false false None None None "msh" Sample.empty_world
  = (Raise (AssertionError "Gmsh exited with error (return code 1)."),
     World {[ "/tmp/tmpq1.geo" := "Point(1) = {0, 0, 0, 1};" ]}
       [["gmsh"; "-3"; "/tmp/tmpq1.geo"; "-format"; "msh"; "-bin"; "-o";
         "/tmp/tmpq1.msh"]]).
Proof.
  apply (engine_failure_leaves_files Sample.tempfile_name Sample.gmsh_failing
           (Sample.decode_as Sample.empty_mesh) _ true 3 true false false None
           None None "msh" Sample.empty_world "/tmp/tmpq1.geo" "/tmp/tmpq1.msh"
           1).
  - vm_compute. reflexivity.
  - lia.
Defined.

(** The claim C5 does not hold: after a failure of the engine the script
    that [generate_mesh] wrote is still there. *)
Lemma engine_failure_cleans_up_fails : ¬ engine_failure_cleans_up.
Proof.
  intros Hclaim.
  destruct (Hclaim Sample.tempfile_name Sample.gmsh_failing
              (Sample.decode_as Sample.empty_mesh) "Point(1) = {0, 0, 0, 1};"
              true 3 true false false None None None "msh" Sample.empty_world
              "/tmp/tmpq1.geo" "/tmp/tmpq1.msh" 1
              (World {[ "/tmp/tmpq1.geo" := "Point(1) = {0, 0, 0, 1};" ]}
                 [["gmsh"; "-3"; "/tmp/tmpq1.geo"; "-format"; "msh"; "-bin";
                   "-o"; "/tmp/tmpq1.msh"]]))
    as (e & w' & Hrun & _ & Hgeo); [by vm_compute | lia |].
  rewrite engine_failure_leaves_files_run in Hrun.
  injection Hrun as _ <-. specialize (Hgeo eq_refl). by vm_compute in Hgeo.
Qed.

Lemma sample_remove_faces :
  remove_faces_block Sample.raw_mesh = Ok Sample.volume_mesh.
Proof. vm_compute. reflexivity. Qed.

Lemma sample_prune_vertices :
  prune_vertices_block Sample.volume_mesh = Ok Sample.pruned_mesh.
Proof. vm_compute. reflexivity. Qed.

Lemma sample_prune_z_0 :
  prune_z_0_block Sample.pruned_mesh = Sample.plane_mesh.
Proof. vm_compute. reflexivity. Qed.

Lemma sample_run :
  generate_mesh Sample.tempfile_name Sample.gmsh_meshing
    (Sample.decode_as Sample.raw_mesh) "Point(1) = {0, 0, 0, 1};" true 3
    true true true None None None "msh" Sample.empty_world
  = (Ok (points Sample.plane_mesh, cells Sample.plane_mesh,
         point_data Sample.plane_mesh, cell_data Sample.plane_mesh,
         field_data Sample.plane_mesh),
     Sample.world_after_run).
Proof. vm_compute. reflexivity. Qed.

(** ** The theorems at work on the samples *)

Ltac in_list H :=
  simpl in H; repeat (apply elem_of_cons in H as [->|H]; [lia|]);
  by apply elem_of_nil in H.

Lemma sample_cells_rectangular (key : string) (c : ndarray Z) :
  cells Sample.raw_mesh !! key = Some c → wf_ndarray c.
Proof.
  unfold Sample.raw_mesh, cells.
  intros [[_ <-]|[_ [[_ <-]|[_ Hc]]%lookup_insert_Some]]%lookup_insert_Some;
    [by repeat constructor..|done].
Qed.

Lemma sample_cells_nonnegative (key : string) (c : ndarray Z) (i : Z) :
  cells Sample.raw_mesh !! key = Some c → i ∈ concat (rows c) → 0 ≤ i.
Proof.
  unfold Sample.raw_mesh, cells.
  intros [[_ <-]|[_ [[_ <-]|[_ Hc]]%lookup_insert_Some]]%lookup_insert_Some Hi;
    [in_list Hi..|done].
Qed.

Lemma prune_vertices_block_invariants_witness :
  (∀ key c' i, cells Sample.pruned_mesh !! key = Some c' →
               i ∈ concat (rows c') → 0 ≤ i < 4)
  ∧ (∀ j, (j < 4)%nat →
          ∃ key c', cells Sample.pruned_mesh !! key = Some c'
                    ∧ Z.of_nat j ∈ concat (rows c'))
  ∧ StronglySorted Z.lt [1; 3; 5; 7].
Proof.
  destruct (prune_vertices_block_invariants (H := listing_order)
              Sample.volume_mesh Sample.pruned_mesh sample_prune_vertices)
    as (Hrange & Hreferenced & Hsorted & _).
  - unfold Sample.volume_mesh, cells.
    intros key c [_ <-]%lookup_singleton_Some. by repeat constructor.
  - unfold Sample.volume_mesh, cells.
    intros key c i [_ <-]%lookup_singleton_Some Hi. in_list Hi.
  - split_and!; [exact Hrange | exact Hreferenced | exact Hsorted].
Defined.

Lemma remove_faces_block_cells_witness :
  cells Sample.volume_mesh
  = filter (λ kv, kv.1 ∈ three_d_cells) (cells Sample.raw_mesh)
  ∧ cells Sample.volume_mesh !! "triangle" = None.
Proof.
  destruct (remove_faces_block_cells (H := listing_order) Sample.raw_mesh
              Sample.volume_mesh sample_remove_faces)
    as (Hvolume & _ & _ & Htetra).
  split.
  - apply Hvolume. exists "tetra". split; [by vm_compute | by eexists].
  - apply Htetra. by eexists.
Defined.

Lemma remove_faces_block_cell_data_witness :
  dom (cell_data Sample.volume_mesh) = dom (cells Sample.volume_mesh).
Proof.
  exact (proj1 (remove_faces_block_cell_data (H := listing_order)
                  Sample.raw_mesh Sample.volume_mesh sample_remove_faces)).
Defined.

Lemma prune_z_0_block_collapse_witness :
  prune_z_0_block Sample.pruned_mesh = Sample.plane_mesh
  ∧ prune_z_0_block Sample.lifted_mesh = Sample.lifted_mesh.
Proof.
  split.
  - destruct (prune_z_0_block_collapse Sample.pruned_mesh eq_refl)
      as (Hflat & _).
    rewrite Hflat; [reflexivity|]. intros r z Hr Hz. simpl in Hr.
    repeat (apply elem_of_cons in Hr as [->|Hr];
            [injection Hz as <-; reflexivity|]).
    by apply elem_of_nil in Hr.
  - destruct (prune_z_0_block_collapse Sample.lifted_mesh eq_refl)
      as (_ & _ & _ & _ & Hlifted).
    apply Hlifted. simpl. right. right. by left.
Defined.


Lemma Spline_init_code_witness :
  ∃ spline,
    Spline.__init__ Sample.line_id (map PointInstance Sample.four_points) 0
    = (Ok spline, 1%nat)
    ∧ Spline.code spline
      = "l0 = newl;" +:+ newline +:+ "BSpline(l0) = {p0, p1, p2, p3};".
Proof.
  destruct (Spline_init_code Sample.line_id Sample.four_points 0)
    as (spline & Hinit & Hcode & _); [simpl; lia|].
  exists spline. split; [exact Hinit | exact Hcode].
Defined.

Lemma field_data_unchanged_witness :
  field_data Sample.plane_mesh = field_data Sample.raw_mesh.
Proof.
  destruct (field_data_unchanged (H := listing_order) _ _ _ _ _ _ _ _ _ _ _ _
              _ _ _ _ _ _ _ _ sample_run)
    as (geo & msh & w1 & mesh & _ & Hdecode & ->).
  unfold Sample.decode_as in Hdecode.
  destruct (files w1 !! msh); [|discriminate Hdecode].
  by injection Hdecode as <-.
Defined.

Lemma generate_mesh_stage_order_witness :
  Sample.plane_mesh
  = collapse_flat_axis
      (prune_orphan_vertices (filter_cells_by_dimension Sample.raw_mesh)).
Proof.
  destruct (generate_mesh_stage_order (H := listing_order) _ _ _ _ _ _ _ _ _ _
              _ _ _ _ _ _ _ sample_run)
    as (geo & msh & w1 & raw & _ & Hdecode & _ & Hstages).
  unfold Sample.decode_as in Hdecode.
  destruct (files w1 !! msh); [|discriminate Hdecode].
  injection Hdecode as <-.
  apply Hstages;
    [exact sample_cells_rectangular | exact sample_cells_nonnegative].
Defined.

(** Pruning before filtering keeps the three vertices that only the faces
    reference: the order of the two stages matters. *)
Lemma pruning_before_filtering_differs :
  shape0 (points (filter_cells_by_dimension
                    (prune_orphan_vertices Sample.raw_mesh))) = 7%nat
  ∧ shape0 (points (prune_orphan_vertices
                      (filter_cells_by_dimension Sample.raw_mesh))) = 4%nat.
Proof. split; vm_compute; reflexivity. Qed.

(** * Further properties of the code *)

(** ** More on the block [if prune_vertices:] *)

Section PruneVerticesMore.
Context {CellData FieldData : Type}.
Context `{PyIteration}.
Implicit Types mesh : Mesh CellData FieldData.

Lemma Forall2_map_self {A B} (P : A → B → Prop) (f : A → B) (l : list A) :
  (∀ x, x ∈ l → P x (f x)) → Forall2 P l (map f l).
Proof.
  induction l as [|x l IH]; intros Hall; simpl; constructor.
  - apply Hall. by left.
  - apply IH. intros y ?. apply Hall. by right.
Qed.

(** What a run of the block that returns tells about the survivors. *)
Lemma prune_vertices_block_survivors mesh mesh' :
  prune_vertices_block mesh = Ok mesh' →
  (∀ key c, cells mesh !! key = Some c → wf_ndarray c) →
  (∀ key c i, cells mesh !! key = Some c → i ∈ concat (rows c) → 0 ≤ i) →
  let survivors :=
    surviving_vertices (shape0 (points mesh)) (referenced_vertices (cells mesh)) in
  mesh' = prune_orphan_vertices mesh
  ∧ StronglySorted Z.lt survivors
  ∧ (∀ i, i ∈ survivors ↔ i ∈ referenced_vertices (cells mesh))
  ∧ (∀ i, i ∈ survivors → 0 ≤ i < Z.of_nat (shape0 (points mesh)))
  ∧ (∀ i, i ∈ survivors →
          0 ≤ new_index survivors i
          ∧ survivors !! Z.to_nat (new_index survivors i) = Some i)
  ∧ (∀ key a i, point_data mesh !! key = Some a → i ∈ survivors →
                0 ≤ i < Z.of_nat (shape0 a)).
Proof.
  intros Hb Hwf Hnonneg survivors.
  destruct (prune_vertices_block_refines _ _ Hb Hwf Hnonneg)
    as (-> & Hrange & Hpd).
  pose proof (surviving_vertices_sorted (shape0 (points mesh))
                (referenced_vertices (cells mesh))) as Hsorted.
  fold survivors in Hsorted.
  assert (Hsurv : ∀ i, i ∈ survivors ↔ i ∈ referenced_vertices (cells mesh)).
  { intros i. unfold survivors. rewrite elem_of_surviving_vertices.
    split; [by intros [? _] | by auto]. }
  split_and!; [done..| | |].
  - intros i Hi%Hsurv. by apply Hrange.
  - intros i (j & Hj)%list_elem_of_lookup_1. unfold new_index.
    split; [lia|].
    by rewrite Nat2Z.id, (sorted_lookup_count _ _ _ Hsorted Hj).
  - intros key a i Ha Hi%Hsurv. split; [by apply Hrange | by eapply Hpd].
Qed.

(** Pruning moves no vertex: every cell refers, after the block, to points
    with the coordinates and the point data that its vertices had before. *)
Theorem prune_vertices_block_keeps_geometry mesh mesh' :
  prune_vertices_block mesh = Ok mesh' →
  (∀ key c, cells mesh !! key = Some c → wf_ndarray c) →
  (∀ key c i, cells mesh !! key = Some c → i ∈ concat (rows c) → 0 ≤ i) →
  ∀ key c, cells mesh !! key = Some c →
    ∃ c',
      cells mesh' !! key = Some c'
      ∧ Forall2
          (Forall2 (λ i i',
             0 ≤ i'
             ∧ is_Some (rows (points mesh) !! Z.to_nat i)
             ∧ rows (points mesh') !! Z.to_nat i'
               = rows (points mesh) !! Z.to_nat i
             ∧ ∀ name a, point_data mesh !! name = Some a →
                 ∃ a', point_data mesh' !! name = Some a'
                       ∧ is_Some (rows a !! Z.to_nat i)
                       ∧ rows a' !! Z.to_nat i' = rows a !! Z.to_nat i))
          (rows c) (rows c').
Proof.
  intros Hb Hwf Hnonneg key c Hc.
  destruct (prune_vertices_block_survivors _ _ Hb Hwf Hnonneg)
    as (-> & Hsorted & Hsurv & Hrange & Hpos & Hpd).
  set (survivors := surviving_vertices (shape0 (points mesh))
                      (referenced_vertices (cells mesh))) in *.
  exists (map_ndarray (new_index survivors) c). split.
  { unfold prune_orphan_vertices. simpl. fold survivors.
    by rewrite lookup_fmap, Hc. }
  unfold map_ndarray. simpl. apply Forall2_map_self. intros r Hr.
  apply Forall2_map_self. intros i Hi.
  assert (i ∈ survivors) as His.
  { apply Hsurv, elem_of_referenced_vertices. exists key, c. split; [done|].
    apply elem_of_concat. eauto. }
  destruct (Hpos i His) as [Hi0 Hlook].
  destruct (select_rows_lookup (points mesh) survivors Hrange) as [_ Hrows].
  destruct (Hrows _ _ Hlook) as [Hrow Hsome].
  split_and!; [done..|].
  intros name a Ha. exists (select_rows a survivors).
  unfold prune_orphan_vertices. simpl. fold survivors.
  rewrite lookup_fmap, Ha. split; [done|].
  destruct (select_rows_lookup a survivors) as [_ Hrowsa].
  { intros j Hj. by eapply Hpd. }
  by destruct (Hrowsa _ _ Hlook).
Qed.

(** Pruning keeps the cell types, the shape of every block and the cell
    data, so that the cell data stay aligned with the cells. *)
Theorem prune_vertices_block_keeps_shapes mesh mesh' :
  prune_vertices_block mesh = Ok mesh' →
  (∀ key c, cells mesh !! key = Some c → wf_ndarray c) →
  (∀ key c i, cells mesh !! key = Some c → i ∈ concat (rows c) → 0 ≤ i) →
  dom (cells mesh') = dom (cells mesh)
  ∧ cell_data mesh' = cell_data mesh
  ∧ ∀ key c, cells mesh !! key = Some c →
      ∃ c', cells mesh' !! key = Some c'
            ∧ shape0 c' = shape0 c ∧ shape1 c' = shape1 c ∧ wf_ndarray c'
            ∧ Forall2 (λ r r', length r' = length r) (rows c) (rows c').
Proof.
  intros Hb Hwf Hnonneg.
  destruct (prune_vertices_block_refines _ _ Hb Hwf Hnonneg) as (-> & _).
  unfold prune_orphan_vertices. simpl. split_and!; [by rewrite dom_fmap_L|done|].
  intros key c Hc. eexists. rewrite lookup_fmap, Hc. split; [done|].
  unfold map_ndarray, shape0, wf_ndarray. simpl. split_and!; [|done| |].
  - by rewrite length_map.
  - apply Forall_fmap. eapply Forall_impl; [exact (Hwf _ _ Hc)|]. simpl.
    intros r Hr. by rewrite length_map.
  - apply Forall2_map_self. intros r _. by rewrite length_map.
Qed.

Lemma filter_all {A} (P : A → Prop) `{∀ x, Decision (P x)} (l : list A) :
  (∀ x, x ∈ l → P x) → filter P l = l.
Proof.
  induction l as [|x l IH]; intros Hall; [done|].
  rewrite filter_cons_True by (apply Hall; by left).
  f_equal. apply IH. intros y ?. apply Hall. by right.
Qed.

Lemma surviving_vertices_all (npoints : nat) (referenced : gset Z) :
  (∀ j, (j < npoints)%nat → Z.of_nat j ∈ referenced) →
  surviving_vertices npoints referenced = Z.of_nat <$> seq 0 npoints.
Proof.
  intros Hall. unfold surviving_vertices. apply filter_all.
  intros i (j & -> & Hj%elem_of_seq)%list_elem_of_fmap. apply Hall. lia.
Qed.

Lemma select_rows_all {A} (a : ndarray A) :
  select_rows a (Z.of_nat <$> seq 0 (shape0 a)) = a.
Proof.
  destruct a as [nc rws]. unfold select_rows, shape0. simpl. f_equal.
  apply list_eq. intros j. rewrite omap_total_lookup.
  - rewrite list_lookup_fmap.
    destruct (decide (j < length rws)%nat) as [Hlt|Hge].
    + rewrite lookup_seq_lt by done. simpl. by rewrite Nat2Z.id.
    + rewrite lookup_seq_ge by lia. simpl. symmetry.
      apply lookup_ge_None. lia.
  - intros i (k & -> & Hk%elem_of_seq)%list_elem_of_fmap.
    rewrite Nat2Z.id. apply lookup_lt_is_Some_2. lia.
Qed.

Lemma map_ndarray_id {A} (f : A → A) (c : ndarray A) :
  (∀ x, x ∈ concat (rows c) → f x = x) → map_ndarray f c = c.
Proof.
  intros Hid. rewrite (map_ndarray_ext f id) by done. clear Hid.
  destruct c as [nc rws]. unfold map_ndarray. simpl. f_equal.
  induction rws as [|r rws IH]; [done|]. simpl.
  f_equal; [apply map_id | exact IH].
Qed.

(** The pruning stage changes nothing in a mesh whose points are all
    referenced, when the arrays of point data have one row per point. *)
Lemma prune_orphan_vertices_no_orphans mesh :
  (∀ i, i ∈ referenced_vertices (cells mesh) →
        0 ≤ i < Z.of_nat (shape0 (points mesh))) →
  (∀ j, (j < shape0 (points mesh))%nat →
        Z.of_nat j ∈ referenced_vertices (cells mesh)) →
  (∀ key a, point_data mesh !! key = Some a →
            shape0 a = shape0 (points mesh)) →
  prune_orphan_vertices mesh = mesh.
Proof.
  intros Hrange Hall Hpd. unfold prune_orphan_vertices.
  rewrite surviving_vertices_all by done.
  destruct mesh as [p c pd cd fd]. simpl in *. f_equal.
  - apply select_rows_all.
  - apply map_eq. intros key. rewrite lookup_fmap.
    destruct (c !! key) as [b|] eqn:Hb; [|done]. simpl. f_equal.
    apply map_ndarray_id. intros x Hx.
    assert (Hxr : x ∈ referenced_vertices c).
    { apply elem_of_referenced_vertices. eauto. }
    apply Hrange in Hxr. unfold new_index.
    rewrite (sorted_lookup_count _ (Z.to_nat x) x); [lia| |].
    + rewrite <- (surviving_vertices_all _ (referenced_vertices c)) by done.
      apply surviving_vertices_sorted.
    + rewrite list_lookup_fmap, lookup_seq_lt by lia. simpl. f_equal. lia.
  - apply map_eq. intros key. rewrite lookup_fmap.
    destruct (pd !! key) as [a|] eqn:Ha; [|done]. simpl. f_equal.
    rewrite <- (Hpd _ _ Ha). apply select_rows_all.
Qed.

(** Without orphans the block returns the mesh it was given. *)
Theorem prune_vertices_block_no_orphans mesh :
  cells mesh ≠ ∅ →
  (∀ key c, cells mesh !! key = Some c → wf_ndarray c ∧ rows c ≠ []) →
  (∀ key c i, cells mesh !! key = Some c → i ∈ concat (rows c) →
              0 ≤ i < Z.of_nat (shape0 (points mesh))) →
  (∀ j, (j < shape0 (points mesh))%nat →
        ∃ key c, cells mesh !! key = Some c ∧ Z.of_nat j ∈ concat (rows c)) →
  (∀ key a, point_data mesh !! key = Some a →
            shape0 a = shape0 (points mesh)) →
  prune_vertices_block mesh = Ok mesh.
Proof.
  intros Hne Hwf Hrange Hall Hpd.
  destruct (prune_vertices_block_returns mesh) as [mesh' Hb]; [done..| |].
  { intros key a Ha. by rewrite (Hpd _ _ Ha). }
  rewrite Hb. f_equal.
  destruct (prune_vertices_block_refines _ _ Hb) as (-> & Hrange' & _).
  - intros key c Hc. by apply (Hwf key c).
  - intros key c i Hc Hi. by apply (Hrange key c i).
  - apply prune_orphan_vertices_no_orphans; [done| |done].
    intros j Hj. apply elem_of_referenced_vertices. by apply Hall.
Qed.

Lemma sorted_lt_NoDup (l : list Z) : StronglySorted Z.lt l → NoDup l.
Proof.
  induction 1 as [|x l Hl IH Hx]; constructor; [|done].
  rewrite Forall_forall in Hx. intros Hin%Hx. lia.
Qed.

(** After the block there are as many points as there are distinct vertex
    indices in the cells, never more than before, and every array of point
    data has one row per point. *)
Theorem prune_vertices_block_point_count mesh mesh' :
  prune_vertices_block mesh = Ok mesh' →
  (∀ key c, cells mesh !! key = Some c → wf_ndarray c) →
  (∀ key c i, cells mesh !! key = Some c → i ∈ concat (rows c) → 0 ≤ i) →
  shape0 (points mesh') = size (referenced_vertices (cells mesh))
  ∧ (shape0 (points mesh') ≤ shape0 (points mesh))%nat
  ∧ (∀ name a', point_data mesh' !! name = Some a' →
                shape0 a' = shape0 (points mesh')).
Proof.
  intros Hb Hwf Hnonneg.
  destruct (prune_vertices_block_survivors _ _ Hb Hwf Hnonneg)
    as (-> & Hsorted & Hsurv & Hrange & _ & Hpd).
  set (survivors := surviving_vertices (shape0 (points mesh))
                      (referenced_vertices (cells mesh))) in *.
  destruct (select_rows_lookup (points mesh) survivors Hrange) as [Hlen _].
  assert (shape0 (points (prune_orphan_vertices mesh)) = length survivors)
    as -> by exact Hlen.
  split_and!.
  - rewrite <- (size_list_to_set (C := gset Z) survivors)
      by by apply sorted_lt_NoDup.
    f_equal. apply set_eq. intros i. by rewrite elem_of_list_to_set, Hsurv.
  - unfold survivors, surviving_vertices.
    etrans; [apply length_filter|]. by rewrite length_fmap, length_seq.
  - intros name a'. unfold prune_orphan_vertices. simpl. fold survivors.
    rewrite lookup_fmap.
    destruct (point_data mesh !! name) as [a|] eqn:Ha; [|done].
    intros [= <-].
    destruct (select_rows_lookup a survivors) as [Hlena _]; [|done].
    intros i Hi. by eapply Hpd.
Qed.

Lemma dict_keys_empty {V} : dict_keys (∅ : gmap string V) = [].
Proof.
  apply Permutation_nil. rewrite dict_keys_perm. by rewrite map_to_list_empty.
Qed.

Lemma rmapM_Ok_elem {A B} (f : A → result B) (l : list A) (ys : list B) (x : A) :
  rmapM f l = Ok ys → x ∈ l → ∃ y, f x = Ok y.
Proof.
  intros Hm%rmapM_Ok Hx. induction Hm as [|x' y l' ys' Hx' _ IH].
  - by apply elem_of_nil in Hx.
  - apply elem_of_cons in Hx as [->|Hx]; eauto.
Qed.

(** When every failure of [f] on [l] is the exception [e] and there is one,
    the comprehension raises [e]. *)
Lemma rmapM_Raise {A B} (f : A → result B) (l : list A) (e : exn) :
  (∀ x e', x ∈ l → f x = Raise e' → e' = e) →
  (∃ x, x ∈ l ∧ f x = Raise e) →
  rmapM f l = Raise e.
Proof.
  induction l as [|x l IH]; intros Honly (x0 & Hx0 & Hraise).
  - by apply elem_of_nil in Hx0.
  - simpl. destruct (f x) as [y|e'] eqn:Hfx; simpl.
    + rewrite IH; [done| |].
      * intros x' e' ?. apply Honly. by right.
      * apply elem_of_cons in Hx0 as [->|Hx0]; [congruence | eauto].
    + f_equal. eapply Honly; [by left | done].
Qed.

(** A run of the block that returns had a cell block, and no block without
    rows. *)
Lemma prune_vertices_block_nonempty mesh mesh' :
  prune_vertices_block mesh = Ok mesh' →
  cells mesh ≠ ∅ ∧ ∀ key c, cells mesh !! key = Some c → rows c ≠ [].
Proof.
  unfold prune_vertices_block. intros Hb.
  apply rbind_Ok in Hb as (parts & Hparts & Hb).
  apply rbind_Ok in Hb as (ncells & Hncells & _).
  apply np_concatenate_Ok in Hncells as [Hne _]. split.
  - intros Hempty. rewrite Hempty in Hparts. unfold dict_values in Hparts.
    rewrite dict_keys_empty in Hparts. simpl in Hparts.
    by injection Hparts as <-.
  - intros key c Hc.
    destruct (rmapM_Ok_elem _ _ _ c Hparts) as [part Hpart].
    { apply elem_of_dict_values. eauto. }
    unfold np_concatenate_rows in Hpart.
    by apply np_concatenate_Ok in Hpart as [? _].
Qed.

(** The pruned mesh has no orphan: its cells refer to its points, all of
    them, and its point data have one row per point. *)
Lemma prune_orphan_vertices_closed mesh :
  (∀ i, i ∈ referenced_vertices (cells mesh) →
        0 ≤ i < Z.of_nat (shape0 (points mesh))) →
  (∀ key a i, point_data mesh !! key = Some a →
              i ∈ referenced_vertices (cells mesh) → i < Z.of_nat (shape0 a)) →
  let mesh' := prune_orphan_vertices mesh in
  (∀ i, i ∈ referenced_vertices (cells mesh') →
        0 ≤ i < Z.of_nat (shape0 (points mesh')))
  ∧ (∀ j, (j < shape0 (points mesh'))%nat →
          Z.of_nat j ∈ referenced_vertices (cells mesh'))
  ∧ (∀ key a, point_data mesh' !! key = Some a →
              shape0 a = shape0 (points mesh')).
Proof.
  intros Hrange Hpd mesh'.
  set (survivors := surviving_vertices (shape0 (points mesh))
                      (referenced_vertices (cells mesh))).
  pose proof (surviving_vertices_sorted (shape0 (points mesh))
                (referenced_vertices (cells mesh))) as Hsorted.
  fold survivors in Hsorted.
  assert (Hsurv : ∀ i, i ∈ survivors ↔ i ∈ referenced_vertices (cells mesh)).
  { intros i. unfold survivors. rewrite elem_of_surviving_vertices.
    split; [by intros [? _] | by auto]. }
  destruct (select_rows_lookup (points mesh) survivors) as [Hlen _].
  { intros i Hi%Hsurv. by apply Hrange. }
  assert (Hcells : ∀ key, cells mesh' !! key
            = map_ndarray (new_index survivors) <$> cells mesh !! key).
  { intros key. unfold mesh', prune_orphan_vertices. simpl.
    by rewrite lookup_fmap. }
  assert (Hpoints : shape0 (points mesh') = length survivors) by exact Hlen.
  split_and!.
  - intros i (key & c' & Hc' & Hi)%elem_of_referenced_vertices.
    rewrite Hcells in Hc'.
    destruct (cells mesh !! key) as [c|] eqn:Hc; [|done].
    injection Hc' as <-. unfold map_ndarray in Hi. simpl in Hi.
    apply elem_of_concat in Hi as (r' & Hr' & Hi).
    apply list_elem_of_fmap in Hr' as (r & -> & Hr).
    apply list_elem_of_fmap in Hi as (x & -> & Hx).
    assert (x ∈ survivors) as Hxs.
    { apply Hsurv, elem_of_referenced_vertices. exists key, c.
      split; [done|]. apply elem_of_concat. eauto. }
    unfold new_index. split; [lia|]. rewrite Hpoints.
    apply inj_lt. apply (length_filter_lt _ _ x); [done | lia].
  - intros j Hj. rewrite Hpoints in Hj.
    destruct (lookup_lt_is_Some_2 survivors j Hj) as [x Hx].
    assert (x ∈ survivors) as Hxs by by eapply list_elem_of_lookup_2.
    apply Hsurv, elem_of_referenced_vertices in Hxs as (key & c & Hc & Hxc).
    apply elem_of_referenced_vertices.
    exists key, (map_ndarray (new_index survivors) c).
    rewrite Hcells, Hc. split; [done|].
    replace (Z.of_nat j) with (new_index survivors x)
      by (unfold new_index; by rewrite (sorted_lookup_count _ _ _ Hsorted Hx)).
    unfold map_ndarray. simpl.
    apply elem_of_concat in Hxc as (r & Hr & Hxr).
    apply elem_of_concat. exists (map (new_index survivors) r).
    split; [by apply (list_elem_of_fmap_2 (map (new_index survivors))) |].
    by apply (list_elem_of_fmap_2 (new_index survivors)).
  - intros key a' Ha'. unfold mesh', prune_orphan_vertices in Ha'.
    simpl in Ha'. fold survivors in Ha'. rewrite lookup_fmap in Ha'.
    destruct (point_data mesh !! key) as [a|] eqn:Ha; [|done].
    injection Ha' as <-. rewrite Hpoints.
    destruct (select_rows_lookup a survivors) as [Hlena _]; [|done].
    intros i Hi%Hsurv. split; [by apply Hrange | by eapply Hpd].
Qed.

(** Pruning is idempotent: the block returns a pruned mesh as it is. *)
Theorem prune_vertices_block_idempotent mesh mesh' :
  prune_vertices_block mesh = Ok mesh' →
  (∀ key c, cells mesh !! key = Some c → wf_ndarray c) →
  (∀ key c i, cells mesh !! key = Some c → i ∈ concat (rows c) → 0 ≤ i) →
  prune_vertices_block mesh' = Ok mesh'.
Proof.
  intros Hb Hwf Hnonneg.
  destruct (prune_vertices_block_nonempty _ _ Hb) as [Hne Hrows].
  destruct (prune_vertices_block_refines _ _ Hb Hwf Hnonneg)
    as (-> & Hrange & Hpd).
  destruct (prune_orphan_vertices_closed mesh Hrange Hpd)
    as (Hrange' & Hall' & Hpd').
  set (mesh' := prune_orphan_vertices mesh) in *.
  assert (Hblocks : ∀ key c', cells mesh' !! key = Some c' →
            wf_ndarray c' ∧ rows c' ≠ []).
  { intros key c'. unfold mesh', prune_orphan_vertices. simpl.
    rewrite lookup_fmap.
    destruct (cells mesh !! key) as [c|] eqn:Hc; [|done].
    intros [= <-]. unfold map_ndarray, wf_ndarray. simpl. split.
    - apply Forall_fmap. eapply Forall_impl; [exact (Hwf _ _ Hc)|]. simpl.
      intros r Hr. by rewrite length_map.
    - intros Hnil%fmap_nil_inv. by apply (Hrows _ _ Hc). }
  destruct (prune_vertices_block_returns mesh') as [mesh'' Hb'].
  - unfold mesh', prune_orphan_vertices. simpl. by intros ?%fmap_empty_inv.
  - done.
  - intros key c' i Hc' Hi. apply Hrange', elem_of_referenced_vertices. eauto.
  - intros key a Ha. by rewrite (Hpd' _ _ Ha).
  - rewrite Hb'. f_equal.
    destruct (prune_vertices_block_refines _ _ Hb') as (-> & _).
    + intros key c' Hc'. by apply (Hblocks key).
    + intros key c' i Hc' Hi.
      apply (Hrange' i), elem_of_referenced_vertices. eauto.
    + by apply prune_orphan_vertices_no_orphans.
Qed.

(** Without a cell block, or with a block without rows, the block raises
    the [ValueError] of [numpy.concatenate]. *)
Theorem prune_vertices_block_no_cells mesh :
  cells mesh = ∅ ∨ (∃ key c, cells mesh !! key = Some c ∧ rows c = []) →
  prune_vertices_block mesh
  = Raise (ValueError "need at least one array to concatenate").
Proof.
  intros [Hempty|(key & c & Hc & Hrows)]; unfold prune_vertices_block.
  - rewrite Hempty. unfold dict_values. by rewrite dict_keys_empty.
  - rewrite rmapM_Raise with (e := ValueError "need at least one array to concatenate");
      [done| |].
    + intros c' e' _. unfold np_concatenate_rows, np_concatenate.
      destruct (rows c'); [by intros [= <-] | done].
    + exists c. split; [apply elem_of_dict_values; eauto|].
      unfold np_concatenate_rows. by rewrite Hrows.
Qed.

Lemma np_getrow_Raise {A} (a : ndarray A) (i : Z) (e : exn) :
  np_getrow a i = Raise e → e = IndexError.
Proof.
  unfold np_getrow. destruct (_ && _); [|by intros [= <-]].
  destruct (rows a !! _); [done | by intros [= <-]].
Qed.

Lemma np_getrow_out_of_range {A} (a : ndarray A) (i : Z) :
  ¬ (- Z.of_nat (shape0 a) ≤ i < Z.of_nat (shape0 a)) →
  np_getrow a i = Raise IndexError.
Proof.
  intros Hout. unfold np_getrow.
  destruct (i <? 0) eqn:Hneg;
    [apply Z.ltb_lt in Hneg | apply Z.ltb_ge in Hneg].
  - rewrite (proj2 (andb_false_iff _ _)); [done|]. left. apply Z.leb_gt. lia.
  - rewrite (proj2 (andb_false_iff _ _)); [done|]. right. apply Z.ltb_ge. lia.
Qed.

Lemma np_take_Raise {A} (a : ndarray A) (idx : list Z) (e : exn) :
  np_take a idx = Raise e → e = IndexError.
Proof.
  unfold np_take. destruct (rmapM (np_getrow a) idx) as [rs|e'] eqn:Hm; [done|].
  intros [= <-]. revert Hm. induction idx as [|i idx IH]; simpl; [done|].
  destruct (np_getrow a i) as [r|e''] eqn:Hi; simpl.
  - destruct (rmapM (np_getrow a) idx); [done|]. intros [= <-]. by apply IH.
  - intros [= <-]. by eapply np_getrow_Raise.
Qed.

Lemma np_take_out_of_range {A} (a : ndarray A) (idx : list Z) (i : Z) :
  i ∈ idx → ¬ (- Z.of_nat (shape0 a) ≤ i < Z.of_nat (shape0 a)) →
  np_take a idx = Raise IndexError.
Proof.
  intros Hi Hout. unfold np_take.
  rewrite rmapM_Raise with (e := IndexError); [done| |].
  - intros x e' _. apply np_getrow_Raise.
  - exists i. split; [done|]. by apply np_getrow_out_of_range.
Qed.

(** The loop over the point data raises [IndexError] when one of the
    arrays has no row for one of the indices. *)
Lemma reindex_point_data_out_of_range (uvertices : list Z) (keys : list string) :
  ∀ (cur : gmap string (ndarray float)) name a,
    NoDup keys →
    (∀ key, key ∈ keys → is_Some (cur !! key)) →
    name ∈ keys → cur !! name = Some a →
    np_take a uvertices = Raise IndexError →
    reindex_point_data uvertices keys cur = Raise IndexError.
Proof.
  induction keys as [|key keys IH]; intros cur name a Hnd Hall Hname Ha Hraise.
  - by apply elem_of_nil in Hname.
  - apply NoDup_cons in Hnd as [Hkey Hnd]. simpl. unfold getitem.
    destruct (Hall key) as [b Hb]; [by left|]. rewrite Hb. simpl.
    destruct (np_take b uvertices) as [b'|e] eqn:Hb'; simpl.
    + apply elem_of_cons in Hname as [->|Hname]; [congruence|].
      apply (IH _ name a); [done| |done| |done].
      * intros key' Hkey'. rewrite lookup_insert_ne by (by intros ->).
        apply Hall. by right.
      * rewrite lookup_insert_ne; [done|]. by intros ->.
    + f_equal. by eapply np_take_Raise.
Qed.

(** The steps of the block up to the loop over the cell blocks return for
    cell blocks that are rectangular and have a row. *)
Lemma prune_vertices_block_renumbers mesh :
  cells mesh ≠ ∅ →
  (∀ key c, cells mesh !! key = Some c → wf_ndarray c ∧ rows c ≠ []) →
  ∃ ncells new_cells,
    (∀ i, i ∈ ncells ↔ i ∈ referenced_vertices (cells mesh))
    ∧ prune_vertices_block mesh
      = (new_points ← np_take (points mesh) (np_unique ncells);
         new_point_data ←
           reindex_point_data (np_unique ncells)
             (dict_keys (point_data mesh)) (point_data mesh);
         Ok (MkMesh new_points new_cells new_point_data (cell_data mesh)
               (field_data mesh))).
Proof.
  intros Hne Hwf. unfold prune_vertices_block.
  assert (rmapM np_concatenate_rows (dict_values (cells mesh))
          = Ok ((λ c, concat (rows c)) <$> dict_values (cells mesh))) as Hparts.
  { apply rmapM_Ok.
    assert (Hall : ∀ c, c ∈ dict_values (cells mesh) → rows c ≠ []).
    { intros c (key & Hc)%elem_of_dict_values. by apply (Hwf key c). }
    induction (dict_values (cells mesh)) as [|c cs IH]; [constructor|].
    constructor.
    - unfold np_concatenate_rows. apply np_concatenate_Ok.
      split; [apply Hall; by left | done].
    - apply IH. intros c' ?. apply Hall. by right. }
  assert (np_concatenate ((λ c, concat (rows c)) <$> dict_values (cells mesh))
          = Ok (concat ((λ c, concat (rows c)) <$> dict_values (cells mesh))))
    as Hncells.
  { apply np_concatenate_Ok. split; [|done].
    apply map_choose in Hne as (key & c & Hc).
    assert (c ∈ dict_values (cells mesh)) as Hin
      by (apply elem_of_dict_values; eauto).
    intros Hnil%fmap_nil_inv. rewrite Hnil in Hin. by apply elem_of_nil in Hin. }
  destruct (concatenated_cells _ _ _ Hparts Hncells) as [_ Href].
  rewrite Hparts. simpl. rewrite Hncells. simpl.
  set (ncells := concat ((λ c, concat (rows c)) <$> dict_values (cells mesh)))
    in *.
  unfold np_unique_inverse. set (u := np_unique ncells).
  destruct (renumber_cells_spec (λ x, Z.of_nat (index_of x u)) ncells
              (dict_keys (cells mesh)) (dict_values (cells mesh))
              (cells mesh) 0)
    as (cur' & Hcur' & _);
    [apply NoDup_dict_keys | apply dict_values_lookup | | by rewrite drop_0 |].
  { apply Forall_forall. intros c (key & Hc)%elem_of_dict_values.
    by apply (Hwf key c). }
  change (renumber_cells (map (λ x, Z.of_nat (index_of x u)) ncells)
            (dict_keys (cells mesh)) (cells mesh) 0 = Ok cur') in Hcur'.
  rewrite Hcur'. simpl. by exists ncells, cur'.
Qed.

(** A cell index that is no row of the points, or no row of an array of
    point data, makes the block raise [IndexError]. *)
Theorem prune_vertices_block_out_of_range mesh :
  (∀ key c, cells mesh !! key = Some c → wf_ndarray c ∧ rows c ≠ []) →
  (∃ key c i,
     cells mesh !! key = Some c ∧ i ∈ concat (rows c)
     ∧ (¬ (- Z.of_nat (shape0 (points mesh)) ≤ i
           < Z.of_nat (shape0 (points mesh)))
        ∨ ∃ name a, point_data mesh !! name = Some a
                    ∧ ¬ (- Z.of_nat (shape0 a) ≤ i < Z.of_nat (shape0 a)))) →
  prune_vertices_block mesh = Raise IndexError.
Proof.
  intros Hwf (key & c & i & Hc & Hi & Hout).
  destruct (prune_vertices_block_renumbers mesh)
    as (ncells & new_cells & Href & ->); [|done|].
  { intros Hempty. by rewrite Hempty in Hc. }
  assert (i ∈ np_unique ncells) as Hiu.
  { apply elem_of_np_unique, Href, elem_of_referenced_vertices. eauto. }
  destruct (np_take (points mesh) (np_unique ncells)) as [p|e] eqn:Hp; simpl.
  - destruct Hout as [Hout|(name & a & Ha & Hout)].
    { by rewrite (np_take_out_of_range _ _ _ Hiu Hout) in Hp. }
    rewrite (reindex_point_data_out_of_range _ _ _ name a); [done|..].
    + apply NoDup_dict_keys.
    + intros key'. by rewrite elem_of_dict_keys.
    + apply elem_of_dict_keys. eauto.
    + done.
    + by eapply np_take_out_of_range.
  - f_equal. by eapply np_take_Raise.
Qed.

(** Pruning comes before the collapse of the third axis: points with three
    columns are reduced to two as soon as the referenced points are on the
    plane, wherever the orphans are. *)
Theorem prune_vertices_block_then_collapse mesh mesh' :
  prune_vertices_block mesh = Ok mesh' →
  (∀ key c, cells mesh !! key = Some c → wf_ndarray c) →
  (∀ key c i, cells mesh !! key = Some c → i ∈ concat (rows c) → 0 ≤ i) →
  shape1 (points mesh) = 3%nat →
  (∀ key c i r z,
     cells mesh !! key = Some c → i ∈ concat (rows c) →
     rows (points mesh) !! Z.to_nat i = Some r → r !! 2%nat = Some z →
     abs_below_tolerance z = true) →
  shape1 (points (prune_z_0_block mesh')) = 2%nat
  ∧ shape0 (points (prune_z_0_block mesh'))
    = size (referenced_vertices (cells mesh)).
Proof.
  intros Hb Hwf Hnonneg Hshape Hflat.
  destruct (prune_vertices_block_survivors _ _ Hb Hwf Hnonneg)
    as (-> & Hsorted & Hsurv & Hrange & _ & _).
  set (survivors := surviving_vertices (shape0 (points mesh))
                      (referenced_vertices (cells mesh))) in *.
  destruct (select_rows_lookup (points mesh) survivors Hrange) as [Hlen _].
  assert (Hz : z_is_zero (points (prune_orphan_vertices mesh)) = true).
  { apply z_is_zero_true. unfold prune_orphan_vertices. simpl.
    fold survivors. split; [done|].
    intros r z (i & Hi & Hr)%list_elem_of_omap Hrz.
    apply Hsurv, elem_of_referenced_vertices in Hi as (key & c & Hc & Hi).
    by eapply Hflat. }
  unfold prune_z_0_block. rewrite Hz.
  unfold np_columns_upto, shape0. simpl. fold survivors.
  rewrite Hshape. split; [done|].
  rewrite length_map.
  change (length (omap (λ i, rows (points mesh) !! Z.to_nat i) survivors))
    with (shape0 (select_rows (points mesh) survivors)).
  rewrite Hlen.
  rewrite <- (size_list_to_set (C := gset Z) survivors)
    by by apply sorted_lt_NoDup.
  f_equal. apply set_eq. intros i. by rewrite elem_of_list_to_set, Hsurv.
Qed.
End PruneVerticesMore.

(** ** More on the block [if remove_faces:] *)

Section RemoveFacesMore.
Context {CellData FieldData : Type}.
Context `{PyIteration}.
Implicit Types mesh : Mesh CellData FieldData.

Lemma dict_comprehension_Raise {V} keys (d acc : gmap string V) :
  (∃ k, k ∈ keys ∧ d !! k = None) →
  ∃ k, dict_comprehension keys d acc = Raise (KeyError k)
       ∧ k ∈ keys ∧ d !! k = None.
Proof.
  revert acc. induction keys as [|key keys IH]; intros acc (k & Hk & Hnone).
  - by apply elem_of_nil in Hk.
  - simpl. unfold getitem. destruct (d !! key) as [v|] eqn:Hkey; simpl.
    + destruct (IH (<[key := v]> acc)) as (k' & -> & Hk' & Hnone').
      { apply elem_of_cons in Hk as [->|Hk]; [congruence | eauto]. }
      exists k'. split_and!; [done | by right | done].
    + exists key. split_and!; [done | by left | done].
Qed.

Lemma retained_cell_types_dom (mesh_cells : gmap string (ndarray Z)) k :
  k ∈ retained_cell_types mesh_cells → is_Some (mesh_cells !! k).
Proof. rewrite <- elem_of_retained_cell_types, elem_of_keep_keys. tauto. Qed.

Lemma retained_cell_types_nonempty (mesh_cells : gmap string (ndarray Z)) :
  mesh_cells ≠ ∅ → ∃ k, k ∈ retained_cell_types mesh_cells.
Proof.
  intros (k & c & Hc)%map_choose. unfold retained_cell_types.
  destruct (decide (three_d_cells ∩ dom mesh_cells ≠ ∅)) as [H3|_];
    [by apply set_choose_L in H3|].
  destruct (decide (two_d_cells ∩ dom mesh_cells ≠ ∅)) as [H2|_];
    [by apply set_choose_L in H2|].
  exists k. apply elem_of_dom. eauto.
Qed.

(** The block raises [KeyError] when the cell data lack a cell type that is
    kept, as for a mesh decoded from a format without cell data. *)
Theorem remove_faces_block_missing_cell_data mesh :
  (∃ k, k ∈ retained_cell_types (cells mesh) ∧ cell_data mesh !! k = None)
  ∨ (cells mesh ≠ ∅ ∧ cell_data mesh = ∅) →
  ∃ k, remove_faces_block mesh = Raise (KeyError k)
       ∧ is_Some (cells mesh !! k) ∧ cell_data mesh !! k = None.
Proof.
  intros Hmissing.
  assert (∃ k, k ∈ keep_keys (cells mesh) ∧ cell_data mesh !! k = None)
    as Hkept.
  { destruct Hmissing as [(k & Hk & Hnone)|[Hne Hempty]].
    - exists k. by rewrite elem_of_retained_cell_types.
    - destruct (retained_cell_types_nonempty _ Hne) as [k Hk]. exists k.
      rewrite elem_of_retained_cell_types. split; [done|].
      by rewrite Hempty. }
  unfold remove_faces_block.
  destruct (proj2 (dict_comprehension_returns (keep_keys (cells mesh))
                     (cells mesh) ∅)) as [c ->].
  { by intros k [? _]%elem_of_keep_keys. }
  simpl.
  destruct (dict_comprehension_Raise (keep_keys (cells mesh)) (cell_data mesh)
              ∅ Hkept) as (k & -> & Hk & Hnone).
  exists k. split_and!; [done| |done]. by apply elem_of_keep_keys in Hk as [? _].
Qed.

(** The block only drops blocks: what it keeps is part of the cells it
    was given, it keeps a block when there was one, and it leaves every
    point in place, orphans included. *)
Theorem remove_faces_block_keeps_points mesh mesh' :
  remove_faces_block mesh = Ok mesh' →
  cells mesh' ⊆ cells mesh
  ∧ (cells mesh ≠ ∅ → cells mesh' ≠ ∅)
  ∧ points mesh' = points mesh
  ∧ point_data mesh' = point_data mesh.
Proof.
  intros Hb. pose proof (remove_faces_block_refines _ _ Hb) as ->.
  unfold filter_cells_by_dimension. simpl. split_and!; [| |done..].
  - apply map_filter_subseteq.
  - intros [k Hk]%retained_cell_types_nonempty.
    destruct (retained_cell_types_dom _ _ Hk) as [c Hc].
    intros Hempty. apply (f_equal (λ m, m !! k)) in Hempty.
    rewrite lookup_restrict, decide_True, Hc, lookup_empty in Hempty by done.
    done.
Qed.

Lemma dom_restrict_retained (mesh_cells : gmap string (ndarray Z)) :
  dom (restrict (retained_cell_types mesh_cells) mesh_cells)
  = retained_cell_types mesh_cells.
Proof.
  apply set_eq. intros k. rewrite elem_of_dom, lookup_restrict.
  case_decide as Hk; [|split; [by intros [? ?] | done]].
  split; [done|]. intros _. by apply retained_cell_types_dom.
Qed.

(** Filtering again retains the same cell types. *)
Lemma retained_cell_types_restrict (mesh_cells : gmap string (ndarray Z)) :
  retained_cell_types (restrict (retained_cell_types mesh_cells) mesh_cells)
  = retained_cell_types mesh_cells.
Proof.
  unfold retained_cell_types at 1. rewrite dom_restrict_retained.
  unfold retained_cell_types.
  destruct (decide (three_d_cells ∩ dom mesh_cells ≠ ∅)) as [H3|H3].
  { assert (three_d_cells ∩ (three_d_cells ∩ dom mesh_cells)
            = three_d_cells ∩ dom mesh_cells) as ->.
    { apply set_eq. intros k. rewrite !elem_of_intersection. tauto. }
    by rewrite decide_True. }
  destruct (decide (two_d_cells ∩ dom mesh_cells ≠ ∅)) as [H2|H2].
  { assert (three_d_cells ∩ (two_d_cells ∩ dom mesh_cells) = ∅) as ->.
    { apply dec_stable in H3. apply set_eq. intros k.
      rewrite !elem_of_intersection, elem_of_empty. split; [|done].
      intros (H3d & _ & Hd). apply (not_elem_of_empty (C := gset string) k).
      rewrite <- H3. by apply elem_of_intersection. }
    rewrite decide_False by (by intros ?).
    assert (two_d_cells ∩ (two_d_cells ∩ dom mesh_cells)
            = two_d_cells ∩ dom mesh_cells) as ->.
    { apply set_eq. intros k. rewrite !elem_of_intersection. tauto. }
    by rewrite decide_True. }
  by rewrite !decide_False.
Qed.

Lemma restrict_restrict {V} (s : gset string) (d : gmap string V) :
  restrict s (restrict s d) = restrict s d.
Proof.
  apply map_eq. intros k. rewrite !lookup_restrict. by case_decide.
Qed.

(** Filtering is idempotent: the block returns a filtered mesh as it is. *)
Theorem remove_faces_block_idempotent mesh mesh' :
  remove_faces_block mesh = Ok mesh' →
  remove_faces_block mesh' = Ok mesh'.
Proof.
  intros Hb. pose proof (remove_faces_block_lookup _ _ Hb) as Hlook.
  pose proof (remove_faces_block_refines _ _ Hb) as Hmesh'.
  destruct (proj2 (remove_faces_block_returns mesh')) as [mesh'' Hb'].
  { intros k [[c' Hc'] _]%elem_of_keep_keys.
    destruct (Hlook k) as (Hcells & -> & Hdata). rewrite Hcells in Hc'.
    case_decide; [by apply Hdata | done]. }
  rewrite Hb'. f_equal.
  rewrite (remove_faces_block_refines _ _ Hb'), Hmesh'.
  unfold filter_cells_by_dimension. simpl.
  rewrite retained_cell_types_restrict. by rewrite !restrict_restrict.
Qed.
End RemoveFacesMore.

(** ** More on the block [if prune_z_0 and ...:] *)

Section PruneZ0More.
Context {CellData FieldData : Type}.
Implicit Types mesh : Mesh CellData FieldData.

(** The block keeps every point and its first two coordinates, leaves
    points that do not have three columns alone, and does nothing when it
    is applied a second time. *)
Theorem prune_z_0_block_keeps_xy mesh :
  shape0 (points (prune_z_0_block mesh)) = shape0 (points mesh)
  ∧ (∀ j r, rows (points mesh) !! j = Some r →
       ∃ r', rows (points (prune_z_0_block mesh)) !! j = Some r'
             ∧ take 2 r' = take 2 r)
  ∧ (shape1 (points mesh) ≠ 3%nat → prune_z_0_block mesh = mesh)
  ∧ prune_z_0_block (prune_z_0_block mesh) = prune_z_0_block mesh.
Proof.
  destruct (z_is_zero (points mesh)) eqn:Hz.
  - pose proof Hz as [Hshape _]%z_is_zero_true.
    assert (prune_z_0_block mesh
            = MkMesh (NdArray 2 (map (take 2) (rows (points mesh))))
                (cells mesh) (point_data mesh) (cell_data mesh)
                (field_data mesh)) as ->.
    { unfold prune_z_0_block, np_columns_upto. by rewrite Hz, Hshape. }
    unfold shape0. simpl. split_and!.
    + by rewrite length_map.
    + intros j r Hr. exists (take 2 r).
      change (map (take 2) (rows (points mesh)))
        with (take 2 <$> rows (points mesh)).
      rewrite list_lookup_fmap, Hr. split; [done|].
      by rewrite take_take.
    + by rewrite Hshape.
    + reflexivity.
  - assert (prune_z_0_block mesh = mesh) as ->.
    { unfold prune_z_0_block. by rewrite Hz. }
    split_and!; [done| |done|].
    + intros j r Hr. eauto.
    + unfold prune_z_0_block. by rewrite Hz.
Qed.
End PruneZ0More.

(** ** More on [Spline] *)

Section SplineMore.
Variable line_id : nat → string.

End SplineMore.

(** ** More on [generate_mesh] *)

Section GenerateMeshMore.
Context {CellData FieldData : Type}.
Context `{PyIteration}.
Variable tempfile_name : string → filesystem → string.
Variable gmsh_process : list string → filesystem → Z * filesystem.
Variable decode_file : string → filesystem → result (Mesh CellData FieldData).

(** The engine phase, step by step. *)
Lemma invoke_engine_trace geo_code dim gmsh_path extra_gmsh_arguments
    geo_filename mesh_file_type w :
  let geo := default (tempfile_name ".geo" (files w)) geo_filename in
  let fs1 := match geo_filename with
             | None => delete geo (<[geo := ""]> (files w))
             | Some _ => files w
             end in
  let fs2 := <[geo := geo_code]> fs1 in
  let msh := tempfile_name ("." +:+ mesh_file_type) fs2 in
  let fs3 := delete msh (<[msh := ""]> fs2) in
  let exe :=
    match gmsh_path with
    | Some path => path
    | None =>
        if bool_decide
             (is_Some (fs3 !! "/Applications/Gmsh.app/Contents/MacOS/gmsh"))
        then "/Applications/Gmsh.app/Contents/MacOS/gmsh"
        else "gmsh"
    end in
  let argv :=
    exe :: gmsh_args dim geo mesh_file_type msh
             (default [] extra_gmsh_arguments ++
              if decide (mesh_file_type = "mesh")
              then ["-string"; "Mesh.SaveElementTagType=2;"] else []) in
  invoke_engine tempfile_name gmsh_process geo_code dim gmsh_path
    extra_gmsh_arguments geo_filename mesh_file_type w
  = (Ok (geo, msh, (gmsh_process argv fs3).1),
     World (gmsh_process argv fs3).2 (spawned w ++ [argv])).
Proof.
  unfold invoke_engine.
  assert ((if String.eqb mesh_file_type "mesh"
           then default [] extra_gmsh_arguments
                ++ ["-string"; "Mesh.SaveElementTagType=2;"]
           else default [] extra_gmsh_arguments)
          = default [] extra_gmsh_arguments ++
            if decide (mesh_file_type = "mesh")
            then ["-string"; "Mesh.SaveElementTagType=2;"] else []) as ->.
  { destruct (String.eqb_spec mesh_file_type "mesh"); case_decide;
      try done. by rewrite app_nil_r. }
  destruct geo_filename as [name|], gmsh_path as [path|]; io_simpl;
    match goal with
    | |- context [gmsh_process ?a ?f] => by destruct (gmsh_process a f)
    end.
Qed.

(** The engine is started on a file system in which the script holds the
    code of the geometry and the mesh file does not exist, all other files
    being those of the caller; the executable is [gmsh_path] when it is
    given, else the macOS application when that file exists, else
    [gmsh]. *)
Theorem engine_start_state geo_code dim gmsh_path extra_gmsh_arguments
    geo_filename mesh_file_type w geo msh returncode w1 :
  invoke_engine tempfile_name gmsh_process geo_code dim gmsh_path
    extra_gmsh_arguments geo_filename mesh_file_type w
  = (Ok (geo, msh, returncode), w1) →
  ∃ exe args fs,
    spawned w1 = spawned w ++ [exe :: args]
    ∧ gmsh_process (exe :: args) fs = (returncode, files w1)
    ∧ fs !! msh = None
    ∧ (geo ≠ msh → fs !! geo = Some geo_code)
    ∧ (∀ path, path ≠ geo → path ≠ msh → fs !! path = files w !! path)
    ∧ exe = match gmsh_path with
            | Some path => path
            | None =>
                if bool_decide
                     (is_Some
                        (fs !! "/Applications/Gmsh.app/Contents/MacOS/gmsh"))
                then "/Applications/Gmsh.app/Contents/MacOS/gmsh"
                else "gmsh"
            end.
Proof.
  rewrite invoke_engine_trace. cbv zeta. intros [= <- <- <- <-].
  eexists _, _, _. split_and!; [done | apply surjective_pairing | ..| done].
  - apply lookup_delete_eq.
  - intros Hne. rewrite lookup_delete_ne by done.
    rewrite lookup_insert_ne by done. apply lookup_insert_eq.
  - intros path Hgeo Hmsh. rewrite lookup_delete_ne by done.
    rewrite !lookup_insert_ne by done.
    destruct geo_filename as [name|]; [done|].
    rewrite lookup_delete_ne by done. by rewrite lookup_insert_ne.
Qed.

(** No exception is caught: when the decoder or an enabled block raises,
    [generate_mesh] raises the same exception, and the files are as the
    engine left them. *)
Theorem generate_mesh_propagates geo_code verbose dim
    (prune_vertices prune_z_0 remove_faces : bool) gmsh_path
    extra_gmsh_arguments geo_filename mesh_file_type w geo msh w1 e :
  invoke_engine tempfile_name gmsh_process geo_code dim gmsh_path
    extra_gmsh_arguments geo_filename mesh_file_type w
  = (Ok (geo, msh, 0), w1) →
  decode_file msh (files w1) = Raise e
  ∨ (∃ raw, decode_file msh (files w1) = Ok raw
            ∧ remove_faces = true ∧ remove_faces_block raw = Raise e)
  ∨ (∃ raw filtered,
       decode_file msh (files w1) = Ok raw
       ∧ (if remove_faces then remove_faces_block raw else Ok raw)
         = Ok filtered
       ∧ prune_vertices = true ∧ prune_vertices_block filtered = Raise e) →
  generate_mesh tempfile_name gmsh_process decode_file geo_code verbose dim
    prune_vertices prune_z_0 remove_faces gmsh_path extra_gmsh_arguments
    geo_filename mesh_file_type w
  = (Raise e, w1).
Proof.
  intros Hrun Hraise. rewrite generate_mesh_phases.
  unfold mbind at 1, io_bind at 1. rewrite Hrun.
  unfold mbind at 1, io_bind at 1, assert, lift. simpl.
  unfold decode_and_clean. io_simpl.
  destruct Hraise as [->|[(raw & -> & -> & ->)|(raw & m1 & -> & -> & -> & ->)]];
    done.
Qed.


(** With the three stages disabled [generate_mesh] returns the decoded mesh
    as it is. *)
Theorem generate_mesh_without_stages geo_code verbose dim gmsh_path
    extra_gmsh_arguments geo_filename mesh_file_type w out w' :
  generate_mesh tempfile_name gmsh_process decode_file geo_code verbose dim
    false false false gmsh_path extra_gmsh_arguments geo_filename
    mesh_file_type w
  = (Ok out, w') →
  ∃ geo msh w1 raw,
    invoke_engine tempfile_name gmsh_process geo_code dim gmsh_path
      extra_gmsh_arguments geo_filename mesh_file_type w
    = (Ok (geo, msh, 0), w1)
    ∧ decode_file msh (files w1) = Ok raw
    ∧ out = (points raw, cells raw, point_data raw, cell_data raw,
             field_data raw).
Proof.
  intros (geo & msh & w1 & Hrun & Hrest)%generate_mesh_Ok.
  apply decode_and_clean_Ok in Hrest
    as (raw & m1 & m2 & Hraw & [= <-] & [= <-] & -> & _).
  by exists geo, msh, w1, raw.
Qed.

Lemma renumber_cells_dom (uidx : list Z) (keys : list string) :
  ∀ (cur cur' : gmap string (ndarray Z)) (k : nat),
    renumber_cells uidx keys cur k = Ok cur' → dom cur' = dom cur.
Proof.
  induction keys as [|key keys IH]; intros cur cur' k Hloop; simpl in Hloop.
  - by injection Hloop as <-.
  - inv_result.
    match goal with Hg : getitem _ _ = _ |- _ => apply getitem_Ok in Hg;
      rename Hg into Hkey end.
    rewrite (IH _ _ _ Hloop), dom_insert_L.
    apply set_eq. intros j. rewrite elem_of_union, elem_of_singleton.
    split; [|by auto]. intros [->|?]; [|done]. apply elem_of_dom. eauto.
Qed.

Lemma prune_vertices_block_dom (mesh mesh' : Mesh CellData FieldData) :
  prune_vertices_block mesh = Ok mesh' → dom (cells mesh') = dom (cells mesh).
Proof.
  unfold prune_vertices_block, np_unique_inverse. intros Hb.
  apply rbind_Ok in Hb as (parts & _ & Hb).
  apply rbind_Ok in Hb as (ncells & _ & Hb).
  apply rbind_Ok in Hb as (new_cells & Hcells & Hb).
  apply rbind_Ok in Hb as (new_points & _ & Hb).
  apply rbind_Ok in Hb as (new_point_data & _ & Hb).
  injection Hb as <-. simpl. by eapply renumber_cells_dom.
Qed.

Lemma prune_z_0_block_shape0 (mesh : Mesh CellData FieldData) :
  shape0 (points (prune_z_0_block mesh)) = shape0 (points mesh).
Proof.
  unfold prune_z_0_block. destruct (z_is_zero (points mesh)); [|done].
  unfold np_columns_upto, shape0. simpl. by rewrite length_map.
Qed.

(** With [remove_faces] enabled, the cell data that [generate_mesh] returns
    have exactly the keys of the cells it returns, whatever the other two
    stages do. *)
Theorem generate_mesh_cell_data_keys geo_code verbose dim
    (prune_vertices prune_z_0 : bool) gmsh_path extra_gmsh_arguments
    geo_filename mesh_file_type w new_points new_cells new_point_data
    new_cell_data new_field_data w' :
  generate_mesh tempfile_name gmsh_process decode_file geo_code verbose dim
    prune_vertices prune_z_0 true gmsh_path extra_gmsh_arguments geo_filename
    mesh_file_type w
  = (Ok (new_points, new_cells, new_point_data, new_cell_data, new_field_data),
     w') →
  dom new_cell_data = dom new_cells.
Proof.
  intros (geo & msh & w1 & Hrun & Hrest)%generate_mesh_Ok.
  apply decode_and_clean_Ok in Hrest
    as (raw & m1 & m2 & Hraw & Hm1 & Hm2 & Hout & _).
  assert (dom (cell_data m1) = dom (cells m1)) as H1.
  { pose proof (remove_faces_block_lookup _ _ Hm1) as Hlook.
    apply set_eq. intros k. rewrite !elem_of_dom.
    destruct (Hlook k) as (-> & -> & Hdata).
    case_decide as Hk; [|done]. split; [|by auto].
    intros _. by apply elem_of_keep_keys in Hk as [? _]. }
  assert (dom (cell_data m2) = dom (cells m2)) as H2.
  { destruct prune_vertices; [|by injection Hm2 as <-].
    destruct (prune_vertices_block_frame _ _ Hm2) as [-> _].
    by rewrite (prune_vertices_block_dom _ _ Hm2). }
  simpl in Hout. injection Hout as -> -> -> -> ->.
  destruct prune_z_0; [|done].
  by destruct (prune_z_0_block_frame m2) as (-> & _ & -> & _).
Qed.

(** With [prune_vertices] enabled, and for decoded cell blocks that are
    rectangular and hold no negative index, what [generate_mesh] returns is
    closed: every cell index is a row of the points returned, every point
    returned is referenced by a cell, and the point data have one row per
    point; this whatever the other two stages do. *)
Theorem generate_mesh_pruned_is_closed geo_code verbose dim
    (prune_z_0 remove_faces : bool) gmsh_path extra_gmsh_arguments
    geo_filename mesh_file_type w new_points new_cells new_point_data
    new_cell_data new_field_data w' :
  generate_mesh tempfile_name gmsh_process decode_file geo_code verbose dim
    true prune_z_0 remove_faces gmsh_path extra_gmsh_arguments geo_filename
    mesh_file_type w
  = (Ok (new_points, new_cells, new_point_data, new_cell_data, new_field_data),
     w') →
  ∃ geo msh w1 raw,
    invoke_engine tempfile_name gmsh_process geo_code dim gmsh_path
      extra_gmsh_arguments geo_filename mesh_file_type w
    = (Ok (geo, msh, 0), w1)
    ∧ decode_file msh (files w1) = Ok raw
    ∧ ((∀ key c, cells raw !! key = Some c → wf_ndarray c) →
       (∀ key c i, cells raw !! key = Some c → i ∈ concat (rows c) → 0 ≤ i) →
       (∀ key c i, new_cells !! key = Some c → i ∈ concat (rows c) →
                   0 ≤ i < Z.of_nat (shape0 new_points))
       ∧ (∀ j, (j < shape0 new_points)%nat →
               ∃ key c, new_cells !! key = Some c
                        ∧ Z.of_nat j ∈ concat (rows c))
       ∧ (∀ name a, new_point_data !! name = Some a →
                    shape0 a = shape0 new_points)).
Proof.
  intros (geo & msh & w1 & Hrun & Hrest)%generate_mesh_Ok.
  apply decode_and_clean_Ok in Hrest
    as (raw & m1 & m2 & Hraw & Hm1 & Hm2 & Hout & _).
  exists geo, msh, w1, raw. split_and!; [done..|]. intros Hwf Hnonneg.
  assert (Hsub : ∀ key c, cells m1 !! key = Some c → cells raw !! key = Some c).
  { destruct remove_faces; [|by injection Hm1 as <-].
    rewrite (remove_faces_block_refines _ _ Hm1). intros key c.
    unfold filter_cells_by_dimension. simpl. rewrite lookup_restrict.
    by case_decide. }
  destruct (prune_vertices_block_refines _ _ Hm2) as (-> & Hrange & Hpd).
  { intros key c Hc%Hsub. by eapply Hwf. }
  { intros key c i Hc%Hsub. by eapply Hnonneg. }
  destruct (prune_orphan_vertices_closed m1 Hrange Hpd)
    as (Hrange' & Hall' & Hpd').
  set (m2 := prune_orphan_vertices m1) in *.
  assert (new_cells = cells m2 ∧ new_point_data = point_data m2
          ∧ shape0 new_points = shape0 (points m2)) as (-> & -> & ->).
  { simpl in Hout. injection Hout as -> -> -> -> ->.
    destruct prune_z_0; [|done].
    destruct (prune_z_0_block_frame m2) as (-> & -> & _).
    by rewrite prune_z_0_block_shape0. }
  split_and!.
  - intros key c i Hc Hi. apply Hrange', elem_of_referenced_vertices. eauto.
  - intros j Hj. by apply elem_of_referenced_vertices, Hall'.
  - done.
Qed.
End GenerateMeshMore.

(** ** The further properties at work on the samples *)

Lemma sample_volume_rectangular (key : string) (c : ndarray Z) :
  cells Sample.volume_mesh !! key = Some c → wf_ndarray c.
Proof.
  unfold Sample.volume_mesh, cells.
  intros [_ <-]%lookup_singleton_Some. by repeat constructor.
Qed.

Lemma sample_volume_nonnegative (key : string) (c : ndarray Z) (i : Z) :
  cells Sample.volume_mesh !! key = Some c → i ∈ concat (rows c) → 0 ≤ i.
Proof.
  unfold Sample.volume_mesh, cells.
  intros [_ <-]%lookup_singleton_Some Hi. in_list Hi.
Qed.

Lemma prune_vertices_block_keeps_geometry_witness :
  ∃ c',
    cells Sample.pruned_mesh !! "tetra" = Some c'
    ∧ Forall2
        (Forall2 (λ i i',
           rows (points Sample.pruned_mesh) !! Z.to_nat i'
           = rows (points Sample.volume_mesh) !! Z.to_nat i))
        [[7; 1; 5; 3]] (rows c').
Proof.
  destruct (prune_vertices_block_keeps_geometry (H := listing_order)
              Sample.volume_mesh Sample.pruned_mesh sample_prune_vertices
              sample_volume_rectangular sample_volume_nonnegative
              "tetra" (NdArray 4 [[7; 1; 5; 3]]) eq_refl)
    as (c' & Hc' & Hall).
  exists c'. split; [exact Hc'|].
  eapply Forall2_impl; [exact Hall|]. intros r r' Hr.
  eapply Forall2_impl; [exact Hr|]. simpl. intros i i' (_ & _ & Heq & _).
  exact Heq.
Defined.

Lemma prune_vertices_block_keeps_shapes_witness :
  dom (cells Sample.pruned_mesh) = dom (cells Sample.volume_mesh)
  ∧ cell_data Sample.pruned_mesh = cell_data Sample.volume_mesh.
Proof.
  destruct (prune_vertices_block_keeps_shapes (H := listing_order)
              Sample.volume_mesh Sample.pruned_mesh sample_prune_vertices
              sample_volume_rectangular sample_volume_nonnegative)
    as (Hdom & Hdata & _).
  split; [exact Hdom | exact Hdata].
Defined.

Lemma prune_vertices_block_point_count_witness :
  shape0 (points Sample.pruned_mesh)
  = size (referenced_vertices (cells Sample.volume_mesh))
  ∧ (shape0 (points Sample.pruned_mesh)
     ≤ shape0 (points Sample.volume_mesh))%nat.
Proof.
  destruct (prune_vertices_block_point_count (H := listing_order)
              Sample.volume_mesh Sample.pruned_mesh sample_prune_vertices
              sample_volume_rectangular sample_volume_nonnegative)
    as (Hsize & Hle & _).
  split; [exact Hsize | exact Hle].
Defined.

Lemma prune_vertices_block_no_orphans_witness :
  prune_vertices_block Sample.pruned_mesh = Ok Sample.pruned_mesh.
Proof.
  apply (prune_vertices_block_no_orphans (H := listing_order)).
  - intros Hempty. apply (f_equal (λ m, m !! "tetra")) in Hempty.
    by vm_compute in Hempty.
  - unfold Sample.pruned_mesh, cells.
    intros key c [_ <-]%lookup_singleton_Some. split; [|done].
    by repeat constructor.
  - unfold Sample.pruned_mesh, cells, points.
    intros key c i [_ <-]%lookup_singleton_Some Hi. unfold shape0. simpl.
    simpl in Hi.
    repeat (apply elem_of_cons in Hi as [->|Hi]; [lia|]).
    by apply elem_of_nil in Hi.
  - unfold Sample.pruned_mesh, cells, points, shape0. simpl. intros j Hj.
    exists "tetra", (NdArray 4 [[3; 0; 2; 1]]). split; [reflexivity|]. simpl.
    destruct j as [|[|[|[|j]]]]; [| | | |lia]; simpl;
      rewrite !elem_of_cons; tauto.
  - unfold Sample.pruned_mesh, point_data, points.
    by intros key a [_ <-]%lookup_singleton_Some.
Defined.

Lemma prune_vertices_block_idempotent_witness :
  prune_vertices_block Sample.pruned_mesh = Ok Sample.pruned_mesh.
Proof.
  exact (prune_vertices_block_idempotent (H := listing_order)
           Sample.volume_mesh Sample.pruned_mesh sample_prune_vertices
           sample_volume_rectangular sample_volume_nonnegative).
Defined.

Lemma prune_vertices_block_no_cells_witness :
  prune_vertices_block Sample.empty_mesh
  = Raise (ValueError "need at least one array to concatenate").
Proof.
  apply (prune_vertices_block_no_cells (H := listing_order)). by left.
Defined.

Lemma prune_vertices_block_out_of_range_witness :
  prune_vertices_block Sample.dangling_mesh = Raise IndexError.
Proof.
  apply (prune_vertices_block_out_of_range (H := listing_order)).
  - unfold Sample.dangling_mesh, cells.
    intros key c [_ <-]%lookup_singleton_Some. split; [|done].
    by repeat constructor.
  - exists "tetra", (NdArray 4 [[7; 1; 5; 12]]), 12.
    split_and!; [reflexivity | |].
    + simpl. rewrite !elem_of_cons. tauto.
    + left. unfold shape0. simpl. lia.
Defined.

Lemma remove_faces_block_missing_cell_data_witness :
  ∃ k, remove_faces_block Sample.bare_mesh = Raise (KeyError k)
       ∧ is_Some (cells Sample.bare_mesh !! k)
       ∧ cell_data Sample.bare_mesh !! k = None.
Proof.
  apply (remove_faces_block_missing_cell_data (H := listing_order)).
  right. split; [|reflexivity].
  intros Hempty. apply (f_equal (λ m, m !! "tetra")) in Hempty.
  by vm_compute in Hempty.
Defined.

Lemma remove_faces_block_keeps_points_witness :
  cells Sample.volume_mesh ⊆ cells Sample.raw_mesh
  ∧ points Sample.volume_mesh = points Sample.raw_mesh.
Proof.
  destruct (remove_faces_block_keeps_points (H := listing_order)
              Sample.raw_mesh Sample.volume_mesh sample_remove_faces)
    as (Hsub & _ & Hpoints & _).
  split; [exact Hsub | exact Hpoints].
Defined.

Lemma remove_faces_block_idempotent_witness :
  remove_faces_block Sample.volume_mesh = Ok Sample.volume_mesh.
Proof.
  exact (remove_faces_block_idempotent (H := listing_order) Sample.raw_mesh
           Sample.volume_mesh sample_remove_faces).
Defined.


Lemma sample_invoke_engine :
  invoke_engine Sample.tempfile_name Sample.gmsh_meshing
    "Point(1) = {0, 0, 0, 1};" 3 None None None "msh" Sample.empty_world
  = (Ok ("/tmp/tmpq1.geo", "/tmp/tmpq1.msh", 0),
     World
       (<["/tmp/tmpq1.msh" := "$MeshFormat"]>
          {["/tmp/tmpq1.geo" := "Point(1) = {0, 0, 0, 1};"]})
       [["gmsh"; "-3"; "/tmp/tmpq1.geo"; "-format"; "msh"; "-bin"; "-o";
         "/tmp/tmpq1.msh"]]).
Proof. vm_compute. reflexivity. Qed.

Lemma engine_start_state_witness :
  ∃ exe args fs,
    Sample.gmsh_meshing (exe :: args) fs
    = (0, <["/tmp/tmpq1.msh" := "$MeshFormat"]>
            {["/tmp/tmpq1.geo" := "Point(1) = {0, 0, 0, 1};"]})
    ∧ fs !! "/tmp/tmpq1.msh" = None
    ∧ fs !! "/tmp/tmpq1.geo" = Some "Point(1) = {0, 0, 0, 1};"
    ∧ exe = (if bool_decide
                  (is_Some
                     (fs !! "/Applications/Gmsh.app/Contents/MacOS/gmsh"))
             then "/Applications/Gmsh.app/Contents/MacOS/gmsh"
             else "gmsh").
Proof.
  destruct (engine_start_state Sample.tempfile_name Sample.gmsh_meshing _ _ _
              _ _ _ _ _ _ _ _ sample_invoke_engine)
    as (exe & args & fs & _ & Hrun & Hmsh & Hgeo & _ & Hexe).
  exists exe, args, fs. split_and!; [exact Hrun | exact Hmsh | | exact Hexe].
  apply Hgeo. discriminate.
Defined.

Lemma sample_invoke_idle :
  invoke_engine Sample.tempfile_name Sample.gmsh_idle
    "Point(1) = {0, 0, 0, 1};" 3 None None None "msh" Sample.empty_world
  = (Ok ("/tmp/tmpq1.geo", "/tmp/tmpq1.msh", 0),
     World {["/tmp/tmpq1.geo" := "Point(1) = {0, 0, 0, 1};"]}
       [["gmsh"; "-3"; "/tmp/tmpq1.geo"; "-format"; "msh"; "-bin"; "-o";
         "/tmp/tmpq1.msh"]]).
Proof. vm_compute. reflexivity. Qed.

Lemma generate_mesh_propagates_witness :
  generate_mesh Sample.tempfile_name Sample.gmsh_idle
    (Sample.decode_as Sample.raw_mesh) "Point(1) = {0, 0, 0, 1};" true 3
    true false false None None None "msh" Sample.empty_world
  = (Raise (ReadError "/tmp/tmpq1.msh"),
     World {["/tmp/tmpq1.geo" := "Point(1) = {0, 0, 0, 1};"]}
       [["gmsh"; "-3"; "/tmp/tmpq1.geo"; "-format"; "msh"; "-bin"; "-o";
         "/tmp/tmpq1.msh"]]).
Proof.
  apply (generate_mesh_propagates (H := listing_order) _ _ _ _ _ _ _ _ _ _ _
           _ _ _ _ _ _ _ sample_invoke_idle).
  left. reflexivity.
Defined.


Lemma sample_run_named :
  generate_mesh Sample.tempfile_name Sample.gmsh_meshing
    (Sample.decode_as Sample.raw_mesh) "Point(1) = {0, 0, 0, 1};" true 3
    false false false None None (Some "model.geo") "msh" Sample.empty_world
  = (Ok (points Sample.raw_mesh, cells Sample.raw_mesh,
         point_data Sample.raw_mesh, cell_data Sample.raw_mesh,
         field_data Sample.raw_mesh),
     World {["model.geo" := "Point(1) = {0, 0, 0, 1};"]}
       [["gmsh"; "-3"; "model.geo"; "-format"; "msh"; "-bin"; "-o";
         "/tmp/tmpq1.msh"]]).
Proof. vm_compute. reflexivity. Qed.


Lemma generate_mesh_without_stages_witness :
  ∃ raw,
    (points Sample.raw_mesh, cells Sample.raw_mesh, point_data Sample.raw_mesh,
     cell_data Sample.raw_mesh, field_data Sample.raw_mesh)
    = (points raw, cells raw, point_data raw, cell_data raw, field_data raw).
Proof.
  destruct (generate_mesh_without_stages (H := listing_order) _ _ _ _ _ _ _ _
              _ _ _ _ _ sample_run_named)
    as (geo & msh & w1 & raw & _ & _ & Hout).
  exists raw. exact Hout.
Defined.

Lemma generate_mesh_cell_data_keys_witness :
  dom (cell_data Sample.plane_mesh) = dom (cells Sample.plane_mesh).
Proof.
  exact (generate_mesh_cell_data_keys (H := listing_order) _ _ _ _ _ _ _ _ _ _
           _ _ _ _ _ _ _ _ _ sample_run).
Defined.

Lemma generate_mesh_pruned_is_closed_witness :
  (∀ key c i, cells Sample.plane_mesh !! key = Some c → i ∈ concat (rows c) →
              0 ≤ i < Z.of_nat (shape0 (points Sample.plane_mesh)))
  ∧ (∀ j, (j < shape0 (points Sample.plane_mesh))%nat →
          ∃ key c, cells Sample.plane_mesh !! key = Some c
                   ∧ Z.of_nat j ∈ concat (rows c)).
Proof.
  destruct (generate_mesh_pruned_is_closed (H := listing_order) _ _ _ _ _ _ _
              _ _ _ _ _ _ _ _ _ _ _ _ sample_run)
    as (geo & msh & w1 & raw & _ & Hdecode & Hclosed).
  unfold Sample.decode_as in Hdecode.
  destruct (files w1 !! msh); [|discriminate Hdecode].
  injection Hdecode as <-.
  destruct (Hclosed sample_cells_rectangular sample_cells_nonnegative)
    as (Hrange & Hall & _).
  split; [exact Hrange | exact Hall].
Defined.

Lemma sample_prune_bumpy :
  prune_vertices_block Sample.bumpy_mesh = Ok Sample.pruned_mesh.
Proof. vm_compute. reflexivity. Qed.

Lemma prune_vertices_block_then_collapse_witness :
  shape1 (points (prune_z_0_block Sample.pruned_mesh)) = 2%nat
  ∧ z_is_zero (points Sample.bumpy_mesh) = false.
Proof.
  split; [|reflexivity].
  refine (proj1 (prune_vertices_block_then_collapse (H := listing_order)
                   Sample.bumpy_mesh Sample.pruned_mesh sample_prune_bumpy
                   sample_volume_rectangular sample_volume_nonnegative
                   eq_refl _)).
  unfold Sample.bumpy_mesh, Sample.volume_mesh, cells, points.
  intros key c i r z [_ <-]%lookup_singleton_Some Hi Hr Hz. simpl in Hi.
  repeat (apply elem_of_cons in Hi as [->|Hi];
          [injection Hr as <-; injection Hz as <-; reflexivity|]).
  by apply elem_of_nil in Hi.
Defined.
